(** * compare-dir: the ordered concurrent directory comparison engine

    A shallow embedding of [src/compare_dir/directory_comparer.py] and the
    properties its specification states about it.

    Conventions of the embedding:
    - Python [int] is [Z]; [None]-able fields are [option]; counters that only
      ever grow from zero are [nat].
    - [str] is [string]; its order is the lexicographic order on character
      codes ([String.le]), which is how Python orders [str].
    - [pathlib.Path] is the list of its components; [str(path)] joins them
      with a slash.
    - [st_mtime] is a finite float, that is a rational number: it is a [Q];
      [st_size] is a [Z].
    - an exception is a value of [exn]; code that may raise returns a
      [result].
    - the thread pool is an explicit state (one [future_state] per submitted
      task) advanced by a schedule of worker events that the dispatcher does
      not control. *)

From Stdlib Require Import QArith Ascii String.
From stdpp Require Import gmap strings list fin_maps sorting pretty.
Close Scope Q_scope.
Open Scope Z_scope.
Set Warnings "-register-all".

(** ** Exceptions and results *)

Definition Path := list string.

Inductive exn :=
| KeyError (key : string)
| ValueError
| FileNotFoundError (p : Path)
| PermissionError (p : Path).

Inductive result (A : Type) :=
| Ok (a : A)
| Raise (e : exn).
Arguments Ok {A} a.
Arguments Raise {A} e.

#[global] Instance exn_eq_dec : EqDecision exn.
Proof. solve_decision. Defined.

(** ** FileComparisonResult *)

Module FileComparisonResult.

Definition ONLY_IN_DIR1 : Z := 1.
Definition ONLY_IN_DIR2 : Z := 2.
Definition IN_BOTH : Z := 3.

Record t := mk {
  relative_path : string;
  classification : Z;
  modified_time_comparison : option Z;
  size_comparison : option Z;
  is_content_same : option bool
}.

Definition __init__ (relative_path : string) (classification : Z) : t :=
  mk relative_path classification None None None.

Definition is_identical (self : t) : bool :=
  bool_decide (classification self = IN_BOTH) &&
  bool_decide (modified_time_comparison self = Some 0) &&
  bool_decide (size_comparison self = Some 0) &&
  bool_decide (is_content_same self = Some true).

(** Python truthiness of an [int | None]: [None] and [0] are false. *)
Definition truthy (v : option Z) : bool :=
  match v with
  | None => false
  | Some z => negb (z =? 0)
  end.

Definition to_string (self : t) (dir1_name dir2_name : string) : string :=
  let list : list string := [] in
  let list :=
    if bool_decide (classification self = ONLY_IN_DIR1) then
      list ++ ["Only in " +:+ dir1_name]
    else if bool_decide (classification self = ONLY_IN_DIR2) then
      list ++ ["Only in " +:+ dir2_name]
    else if bool_decide (classification self = IN_BOTH) then
      list
    else
      list ++ ["Unknown"] in
  let list :=
    match modified_time_comparison self with
    | None => list ++ ["Modified time not applicable"]
    | Some c =>
        if 0 <? c then list ++ [dir1_name +:+ " is newer"]
        else if c <? 0 then list ++ [dir2_name +:+ " is newer"]
        else list
    end in
  let list :=
    match size_comparison self with
    | None => list
    | Some c =>
        if 0 <? c then list ++ ["Size of " +:+ dir1_name +:+ " is larger"]
        else if c <? 0 then list ++ ["Size of " +:+ dir2_name +:+ " is larger"]
        else list
    end in
  let list :=
    match is_content_same self with
    | None =>
        if negb (truthy (size_comparison self)) then
          list ++ ["Content comparison not applicable"]
        else list
    | Some same =>
        if negb same then list ++ ["Content differ"] else list
    end in
  let details := String.concat ", " list in
  relative_path self +:+ ": " +:+ details.

End FileComparisonResult.

#[global] Instance FileComparisonResult_eq_dec : EqDecision FileComparisonResult.t.
Proof. solve_decision. Defined.

(** ** ComparisonSummary *)

Module ComparisonSummary.
Import FileComparisonResult.

Record t := mk {
  in_both : nat;
  only_in_dir1 : nat;
  only_in_dir2 : nat;
  dir1_newer : nat;
  dir2_newer : nat;
  same_time_diff_size : nat;
  same_time_size_diff_content : nat
}.

Definition __init__ : t := mk 0 0 0 0 0 0 0.

Definition update (self : t) (result : FileComparisonResult.t) : t :=
  if bool_decide (classification result = ONLY_IN_DIR1) then
    mk (in_both self) (S (only_in_dir1 self)) (only_in_dir2 self)
       (dir1_newer self) (dir2_newer self)
       (same_time_diff_size self) (same_time_size_diff_content self)
  else if bool_decide (classification result = ONLY_IN_DIR2) then
    mk (in_both self) (only_in_dir1 self) (S (only_in_dir2 self))
       (dir1_newer self) (dir2_newer self)
       (same_time_diff_size self) (same_time_size_diff_content self)
  else if bool_decide (classification result = IN_BOTH) then
    let self :=
      mk (S (in_both self)) (only_in_dir1 self) (only_in_dir2 self)
         (dir1_newer self) (dir2_newer self)
         (same_time_diff_size self) (same_time_size_diff_content self) in
    if bool_decide (modified_time_comparison result = Some 1) then
      mk (in_both self) (only_in_dir1 self) (only_in_dir2 self)
         (S (dir1_newer self)) (dir2_newer self)
         (same_time_diff_size self) (same_time_size_diff_content self)
    else if bool_decide (modified_time_comparison result = Some (-1)) then
      mk (in_both self) (only_in_dir1 self) (only_in_dir2 self)
         (dir1_newer self) (S (dir2_newer self))
         (same_time_diff_size self) (same_time_size_diff_content self)
    else if bool_decide (size_comparison result ≠ Some 0) then
      mk (in_both self) (only_in_dir1 self) (only_in_dir2 self)
         (dir1_newer self) (dir2_newer self)
         (S (same_time_diff_size self)) (same_time_size_diff_content self)
    else if bool_decide (is_content_same result = Some false) then
      mk (in_both self) (only_in_dir1 self) (only_in_dir2 self)
         (dir1_newer self) (dir2_newer self)
         (same_time_diff_size self) (S (same_time_size_diff_content self))
    else self
  else self.

(** The lines [print] writes to standard output. *)
Definition print (self : t) (dir1_name dir2_name : string) : list string :=
  [ "Files in both: " +:+ pretty (in_both self);
    "Files only in " +:+ dir1_name +:+ ": " +:+ pretty (only_in_dir1 self);
    "Files only in " +:+ dir2_name +:+ ": " +:+ pretty (only_in_dir2 self);
    "Files in both (" +:+ dir1_name +:+ " is newer): " +:+ pretty (dir1_newer self);
    "Files in both (" +:+ dir2_name +:+ " is newer): " +:+ pretty (dir2_newer self);
    "Files in both (same time, different size): " +:+ pretty (same_time_diff_size self);
    "Files in both (same time and size, different content): "
      +:+ pretty (same_time_size_diff_content self) ].

(** The accumulator after a whole stream of records, as [main] feeds it. *)
Definition update_all (self : t) (results : list FileComparisonResult.t) : t :=
  foldl update self results.

(** The four sub-counters of the entries found in both trees. *)
Definition sub_counters (self : t) : nat :=
  (dir1_newer self + dir2_newer self + same_time_diff_size self
   + same_time_size_diff_content self)%nat.

End ComparisonSummary.

(** ** The file system

    A tree of regular files and directories. A directory is [listable] when
    [os.scandir] on it succeeds; a file is [readable] when opening it
    succeeds. Symbolic links and special files are outside the model. *)

Record file := mkfile {
  st_mtime : Q;
  st_size : Z;
  content : list Byte.byte;
  readable : bool
}.

Inductive fsnode :=
| FsFile (f : file)
| FsDir (listable : bool) (entries : list (string * fsnode)).

#[global] Instance byte_eq_dec : EqDecision Byte.byte := Byte.byte_eq_dec.

Definition is_FsDir (n : fsnode) : bool :=
  match n with
  | FsDir _ _ => true
  | FsFile _ => false
  end.

Fixpoint entry_lookup (name : string) (es : list (string * fsnode)) : option fsnode :=
  match es with
  | [] => None
  | (name', n) :: es' =>
      if bool_decide (name' = name) then Some n else entry_lookup name es'
  end.

(** Resolution of a path, from the root of the file system. *)
Fixpoint fs_lookup (fs : fsnode) (p : Path) : option fsnode :=
  match p with
  | [] => Some fs
  | name :: p' =>
      match fs with
      | FsDir _ es =>
          match entry_lookup name es with
          | Some n => fs_lookup n p'
          | None => None
          end
      | FsFile _ => None
      end
  end.

(** ** pathlib *)

Module pathlib.

(** [Path(s)]: the components of [s], separated by slashes. *)
Fixpoint parts_go (cur : string) (s : string) : Path :=
  match s with
  | EmptyString => if bool_decide (cur = "") then [] else [cur]
  | String c s' =>
      if bool_decide (c = "/"%char) then
        if bool_decide (cur = "") then parts_go "" s'
        else cur :: parts_go "" s'
      else parts_go (cur +:+ String c "") s'
  end.

Definition of_string (s : string) : Path := parts_go "" s.

(** [str(path)] *)
Definition str (p : Path) : string :=
  match p with
  | [] => "."
  | _ => String.concat "/" p
  end.

(** [path / name] *)
Definition joinpath (p : Path) (name : string) : Path := p ++ [name].

(** [path.relative_to(base)]: raises [ValueError] unless [base] is a
    prefix of [path]. *)
Fixpoint relative_to (p base : Path) {struct base} : result Path :=
  match base with
  | [] => Ok p
  | b :: base' =>
      match p with
      | c :: p' => if bool_decide (c = b) then relative_to p' base' else Raise ValueError
      | [] => Raise ValueError
      end
  end.

(** [path.is_dir()] *)
Definition is_dir (fs : fsnode) (p : Path) : bool :=
  match fs_lookup fs p with
  | Some n => is_FsDir n
  | None => false
  end.

End pathlib.

(** ** os.walk

    [os.walk(top)] with its default arguments: top-down, symbolic links not
    followed, and errors of [os.scandir] ignored, so that a [top] that cannot
    be listed contributes nothing. Each triple is
    [(dirpath, dirnames, filenames)]. *)

Module os.

Definition dirnames (es : list (string * fsnode)) : list string :=
  (filter (λ e, is_FsDir e.2 = true) es).*1.

Definition filenames (es : list (string * fsnode)) : list string :=
  (filter (λ e, is_FsDir e.2 = false) es).*1.

Fixpoint walk_node (top : Path) (n : fsnode) : list (Path * list string * list string) :=
  match n with
  | FsFile _ => []
  | FsDir false _ => []
  | FsDir true es =>
      (top, dirnames es, filenames es) ::
      flat_map (λ e, if is_FsDir e.2 then walk_node (top ++ [e.1]) e.2 else []) es
  end.

Definition walk (fs : fsnode) (top : Path) : list (Path * list string * list string) :=
  match fs_lookup fs top with
  | Some n => walk_node top n
  | None => []
  end.

End os.

(** ** I/O performed by a comparison

    A comparison task reads metadata and file contents; the log records which
    paths it touched and how. *)

Inductive io_event :=
| IoStat (p : Path)
| IoRead (p : Path).

#[global] Instance io_event_eq_dec : EqDecision io_event.
Proof. solve_decision. Defined.

Definition IO (A : Type) : Type := list io_event * result A.

Definition io_ret {A} (a : A) : IO A := ([], Ok a).

Definition io_raise {A} (e : exn) : IO A := ([], Raise e).

Definition io_bind {A B} (m : IO A) (k : A → IO B) : IO B :=
  match m with
  | (log, Ok a) => let '(log', r) := k a in (log ++ log', r)
  | (log, Raise e) => (log, Raise e)
  end.

Notation "'let*' x ':=' m 'in' k" := (io_bind m (λ x, k))
  (at level 10, x name, m at level 100, k at level 200, only parsing).

(** [path.stat()] / [os.stat(path)] *)
Definition stat (fs : fsnode) (p : Path) : IO file :=
  match fs_lookup fs p with
  | Some (FsFile f) => ([IoStat p], Ok f)
  | _ => ([IoStat p], Raise (FileNotFoundError p))
  end.

(** Opening a file and reading all of it. *)
Definition read_all (fs : fsnode) (p : Path) : IO (list Byte.byte) :=
  match fs_lookup fs p with
  | Some (FsFile f) =>
      if readable f then ([IoRead p], Ok (content f))
      else ([], Raise (PermissionError p))
  | _ => ([], Raise (FileNotFoundError p))
  end.

Module filecmp.

(** [filecmp.cmp(f1, f2, shallow=False)]: both files are stat'ed; files of
    different sizes differ; otherwise both are read in full and compared
    byte for byte. *)
Definition cmp (fs : fsnode) (f1 f2 : Path) : IO bool :=
  let* s1 := stat fs f1 in
  let* s2 := stat fs f2 in
  if bool_decide (st_size s1 ≠ st_size s2) then io_ret false
  else
    let* b1 := read_all fs f1 in
    let* b2 := read_all fs f2 in
    io_ret (bool_decide (b1 = b2)).

End filecmp.

(** ** The thread pool

    [concurrent.futures.ThreadPoolExecutor]: tasks are started in submission
    order, at most [max_workers] at a time. The pool changes state only by
    worker events, which the dispatching thread does not control. *)

Inductive future_state := PENDING | RUNNING | FINISHED.

#[global] Instance future_state_eq_dec : EqDecision future_state.
Proof. solve_decision. Defined.

Inductive worker_event :=
| Start                (* a free worker takes the oldest pending task *)
| Finish (i : nat).    (* the worker running task [i] completes it *)

Module ThreadPoolExecutor.

Record t := mk {
  max_workers : nat;
  futures : list future_state
}.

(** [min(32, (os.cpu_count() or 1) + 4)] *)
Definition default_workers (cpu_count : nat) : nat :=
  Nat.min 32 (Nat.max cpu_count 1 + 4).

Definition __init__ (cpu_count : nat) (max_workers : option Z) : result t :=
  match max_workers with
  | None => Ok (mk (default_workers cpu_count) [])
  | Some n =>
      if n <=? 0 then Raise ValueError
      else Ok (mk (Z.to_nat n) [])
  end.

(** [submit] queues a task and returns the index of its future. *)
Definition submit (self : t) : t * nat :=
  (mk (max_workers self) (futures self ++ [PENDING]), length (futures self)).

Definition running_count (self : t) : nat :=
  length (filter (λ s, s = RUNNING) (futures self)).

Definition step (self : t) (ev : worker_event) : t :=
  match ev with
  | Start =>
      if bool_decide (running_count self < max_workers self)%nat then
        match list_find (λ s, s = PENDING) (futures self) with
        | Some (i, _) => mk (max_workers self) (<[i := RUNNING]> (futures self))
        | None => self
        end
      else self
  | Finish i =>
      if bool_decide (futures self !! i = Some RUNNING) then
        mk (max_workers self) (<[i := FINISHED]> (futures self))
      else self
  end.

End ThreadPoolExecutor.

(** What the consumer and the dispatching thread can observe of a run. *)
Inductive event :=
| EvSubmit (id : nat)
| EvBlock (id : nat)   (* the dispatching thread suspends until task [id] finishes *)
| EvYield (r : FileComparisonResult.t).

#[global] Instance event_eq_dec : EqDecision event.
Proof. solve_decision. Defined.

(** The schedule gives the worker events that happen before each observation
    of the pool by the dispatching thread. *)
Definition schedule := nat → list worker_event.

Record dstate := mkdstate {
  executor : ThreadPoolExecutor.t;
  clock : nat;
  trace : list event
}.

Definition tick (sched : schedule) (σ : dstate) : dstate :=
  mkdstate (foldl ThreadPoolExecutor.step (executor σ) (sched (clock σ)))
           (S (clock σ)) (trace σ).

Definition emit (ev : event) (σ : dstate) : dstate :=
  mkdstate (executor σ) (clock σ) (trace σ ++ [ev]).

(** The records handed to the consumer so far, in order. *)
Definition yielded (σ : dstate) : list FileComparisonResult.t :=
  omap (λ ev, match ev with EvYield r => Some r | _ => None end) (trace σ).

(** The tasks on which the dispatching thread has been suspended so far. *)
Definition blocked (σ : dstate) : list nat :=
  omap (λ ev, match ev with EvBlock i => Some i | _ => None end) (trace σ).

Module Future.

(** A future is the index of its task in the pool together with the
    outcome the task has once it has run. *)
Record t (A : Type) := mk {
  id : nat;
  outcome : result A
}.
Arguments mk {A} id outcome.
Arguments id {A} _.
Arguments outcome {A} _.

Definition state {A} (σ : dstate) (self : t A) : option future_state :=
  ThreadPoolExecutor.futures (executor σ) !! id self.

(** [running()]: the call is being executed right now. *)
Definition running {A} (σ : dstate) (self : t A) : bool :=
  bool_decide (state σ self = Some RUNNING).

(** [done()]: the call has finished. *)
Definition done {A} (σ : dstate) (self : t A) : bool :=
  bool_decide (state σ self = Some FINISHED).

(** [result()]: returns at once when the call has finished; otherwise the
    calling thread is suspended until it has. *)
Definition result {A} (σ : dstate) (self : t A) : dstate * result A :=
  if done σ self then (σ, outcome self)
  else
    let pool := executor σ in
    let pool := ThreadPoolExecutor.mk (ThreadPoolExecutor.max_workers pool)
                  (<[id self := FINISHED]> (ThreadPoolExecutor.futures pool)) in
    (emit (EvBlock (id self)) (mkdstate pool (clock σ) (trace σ)), outcome self).

End Future.

(** [executor.submit(task)] by the dispatching thread. *)
Definition submit {A} (σ : dstate) (task : result A) : dstate * Future.t A :=
  let '(pool, i) := ThreadPoolExecutor.submit (executor σ) in
  (emit (EvSubmit i) (mkdstate pool (clock σ) (trace σ)), Future.mk i task).

(** ** DirectoryComparer *)

(** The values [_compare] is applied to support Python's [>]. *)
Class PyOrd (A : Type) := py_gt : A → A → bool.

#[global] Instance Z_PyOrd : PyOrd Z := λ a b, b <? a.
#[global] Instance Q_PyOrd : PyOrd Q := λ a b, negb (Qle_bool a b).

(** The slots of the pending queue: a ready record or a handle to a
    comparison submitted to the pool. *)
Inductive slot :=
| SlotResult (r : FileComparisonResult.t)
| SlotFuture (f : Future.t FileComparisonResult.t).

(** A [for] loop whose body may raise. *)
Fixpoint for_each {A S} (body : S → A → result S) (s : S) (l : list A) : result S :=
  match l with
  | [] => Ok s
  | a :: l' =>
      match body s a with
      | Ok s' => for_each body s' l'
      | Raise e => Raise e
      end
  end.

Module DirectoryComparer.
Import FileComparisonResult.

Record t := mk {
  dir1 : Path;
  dir2 : Path;
  _max_workers : option Z
}.

Definition __init__ (dir1 dir2 : string) (max_workers : Z) : t :=
  mk (pathlib.of_string dir1) (pathlib.of_string dir2)
     (if 0 <? max_workers then Some max_workers else None).

Definition __enter__ (cpu_count : nat) (self : t) : result ThreadPoolExecutor.t :=
  ThreadPoolExecutor.__init__ cpu_count (_max_workers self).

Definition _compare {A} `{PyOrd A} (value1 value2 : A) : Z :=
  if py_gt value1 value2 then 1
  else if py_gt value2 value1 then -1
  else 0.

Definition _get_files_in_directory (fs : fsnode) (directory_path : Path)
  : result (gmap string Path) :=
  let base_directory := directory_path in
  for_each (λ file_map '(dirpath, _, filenames),
    let current_dir_path := dirpath in
    for_each (λ (file_map : gmap string Path) filename,
      let full_path := pathlib.joinpath current_dir_path filename in
      match pathlib.relative_to full_path base_directory with
      | Ok relative_path => Ok (<[pathlib.str relative_path := full_path]> file_map)
      | Raise e => Raise e
      end) file_map filenames)
    ∅ (os.walk fs base_directory).

(** [d[key]] on a dictionary. *)
Definition getitem (d : gmap string Path) (key : string) : IO Path :=
  match d !! key with
  | Some v => io_ret v
  | None => io_raise (KeyError key)
  end.

Definition _compare_file_pair (fs : fsnode) (rel_path : string)
    (dir1_files dir2_files : gmap string Path) : IO FileComparisonResult.t :=
  let result := FileComparisonResult.__init__ rel_path IN_BOTH in
  let* file1_path := getitem dir1_files rel_path in
  let* file2_path := getitem dir2_files rel_path in
  let* stat1 := stat fs file1_path in
  let* stat2 := stat fs file2_path in
  let result :=
    FileComparisonResult.mk (relative_path result) (classification result)
      (Some (_compare (st_mtime stat1) (st_mtime stat2)))
      (size_comparison result) (is_content_same result) in
  let result :=
    FileComparisonResult.mk (relative_path result) (classification result)
      (modified_time_comparison result)
      (Some (_compare (st_size stat1) (st_size stat2)))
      (is_content_same result) in
  if bool_decide (size_comparison result = Some 0) then
    let* same := filecmp.cmp fs file1_path file2_path in
    io_ret (FileComparisonResult.mk (relative_path result) (classification result)
              (modified_time_comparison result) (size_comparison result)
              (Some same))
  else io_ret result.

(** [yield_from_queue]: the remaining queue, and the exception if a popped
    future raised. *)
Fixpoint yield_from_queue (sched : schedule) (stop_at_running_task : bool)
    (queue : list slot) (σ : dstate) : dstate * list slot * option exn :=
  match queue with
  | [] => (σ, [], None)
  | SlotFuture first_item :: rest =>
      let σ := tick sched σ in
      if stop_at_running_task && Future.running σ first_item then
        (σ, queue, None)
      else
        match Future.result σ first_item with
        | (σ, Ok r) => yield_from_queue sched stop_at_running_task rest (emit (EvYield r) σ)
        | (σ, Raise e) => (σ, rest, Some e)
        end
  | SlotResult first_item :: rest =>
      yield_from_queue sched stop_at_running_task rest (emit (EvYield first_item) σ)
  end.

(** [sorted(set(dir1_files.keys()) | set(dir2_files.keys()))] *)
Definition all_files (dir1_files dir2_files : gmap string Path) : list string :=
  merge_sort String.le (elements (dom dir1_files ∪ dom dir2_files)).

(** The slot appended for one relative path. *)
Definition enqueue (fs : fsnode) (dir1_files dir2_files : gmap string Path)
    (rel_path : string) (queue : list slot) (σ : dstate) : dstate * list slot :=
  let in_dir1 := bool_decide (is_Some (dir1_files !! rel_path)) in
  let in_dir2 := bool_decide (is_Some (dir2_files !! rel_path)) in
  if in_dir1 && negb in_dir2 then
    (σ, queue ++ [SlotResult (FileComparisonResult.__init__ rel_path ONLY_IN_DIR1)])
  else if negb in_dir1 && in_dir2 then
    (σ, queue ++ [SlotResult (FileComparisonResult.__init__ rel_path ONLY_IN_DIR2)])
  else
    let '(σ, future) :=
      submit σ (_compare_file_pair fs rel_path dir1_files dir2_files).2 in
    (σ, queue ++ [SlotFuture future]).

(** The main loop of [__iter__]: queue work for each path, then drain what is
    ready without waiting. *)
Fixpoint dispatch (sched : schedule) (fs : fsnode)
    (dir1_files dir2_files : gmap string Path)
    (paths : list string) (pending_queue : list slot) (σ : dstate)
  : dstate * list slot * option exn :=
  match paths with
  | [] => (σ, pending_queue, None)
  | rel_path :: paths' =>
      let '(σ, pending_queue) :=
        enqueue fs dir1_files dir2_files rel_path pending_queue σ in
      match yield_from_queue sched true pending_queue σ with
      | (σ, pending_queue, None) =>
          dispatch sched fs dir1_files dir2_files paths' pending_queue σ
      | (σ, pending_queue, Some e) => (σ, pending_queue, Some e)
      end
  end.

(** The scan phase of [__iter__]: both scans are submitted, then awaited. *)
Definition scan (self : t) (fs : fsnode) (sched : schedule) (σ : dstate)
  : dstate * result (gmap string Path * gmap string Path) :=
  let '(σ, future1) := submit σ (_get_files_in_directory fs (dir1 self)) in
  let '(σ, future2) := submit σ (_get_files_in_directory fs (dir2 self)) in
  match Future.result (tick sched σ) future1 with
  | (σ, Raise e) => (σ, Raise e)
  | (σ, Ok dir1_files) =>
      match Future.result (tick sched σ) future2 with
      | (σ, Raise e) => (σ, Raise e)
      | (σ, Ok dir2_files) => (σ, Ok (dir1_files, dir2_files))
      end
  end.

(** [__iter__], run until the consumer has exhausted it: the final state and
    the exception, if any, that ended the iteration. The trees are scanned in
    [fs_scan]; the comparisons run later, in [fs_cmp]. *)
Definition __iter__ (self : t) (fs_scan fs_cmp : fsnode) (sched : schedule)
    (pool : ThreadPoolExecutor.t) : dstate * option exn :=
  let σ := mkdstate pool 0 [] in
  match scan self fs_scan sched σ with
  | (σ, Raise e) => (σ, Some e)
  | (σ, Ok (dir1_files, dir2_files)) =>
      let all_files := all_files dir1_files dir2_files in
      let pending_queue : list slot := [] in
      match dispatch sched fs_cmp dir1_files dir2_files all_files pending_queue σ with
      | (σ, _, Some e) => (σ, Some e)
      | (σ, pending_queue, None) =>
          let '(σ, _, raised) := yield_from_queue sched false pending_queue σ in
          (σ, raised)
      end
  end.

End DirectoryComparer.

(** ** main *)

Record args := mkargs {
  args_dir1 : string;
  args_dir2 : string;
  args_parallel : Z;
  args_verbose : bool
}.

(** What a run of [main] leaves behind: the lines printed to standard output,
    the run of the comparer if one was started, and the exception that
    escaped, if any. *)
Record main_outcome := mkoutcome {
  stdout : list string;
  comparison : option dstate;
  escaped : option exn
}.

(** [elapsed] is the formatted running time that the clock gives at the end. *)
Definition main (a : args) (fs_scan fs_cmp : fsnode) (cpu_count : nat)
    (sched : schedule) (elapsed : string) : main_outcome :=
  let dir1_path := pathlib.of_string (args_dir1 a) in
  let dir2_path := pathlib.of_string (args_dir2 a) in
  if negb (pathlib.is_dir fs_scan dir1_path) then
    mkoutcome ["Error: Directory not found at '" +:+ args_dir1 a +:+ "'"] None None
  else if negb (pathlib.is_dir fs_scan dir2_path) then
    mkoutcome ["Error: Directory not found at '" +:+ args_dir2 a +:+ "'"] None None
  else
    let summary := ComparisonSummary.__init__ in
    let finished := "Comparison finished in " +:+ elapsed +:+ "." in
    let comparer :=
      DirectoryComparer.__init__ (args_dir1 a) (args_dir2 a) (args_parallel a) in
    match DirectoryComparer.__enter__ cpu_count comparer with
    | Raise e => mkoutcome [finished] None (Some e)
    | Ok pool =>
        let '(σ, raised) :=
          DirectoryComparer.__iter__ comparer fs_scan fs_cmp sched pool in
        let summary := ComparisonSummary.update_all summary (yielded σ) in
        let lines :=
          (λ result, FileComparisonResult.to_string result (args_dir1 a) (args_dir2 a))
            <$> filter (λ result, FileComparisonResult.is_identical result = false)
                       (yielded σ) in
        match raised with
        | None =>
            mkoutcome
              (lines ++ [""; "--- Comparison Summary ---"]
                     ++ ComparisonSummary.print summary (args_dir1 a) (args_dir2 a)
                     ++ [finished])
              (Some σ) None
        | Some e => mkoutcome (lines ++ [finished]) (Some σ) (Some e)
        end
    end.

(** ** Vocabulary of the specification *)

(** The sign of a rational number. *)
Definition sign_Q (q : Q) : Z := Z.sgn (Qnum q).

(** The invariants of a comparison record (data model of the
    specification). *)
Definition record_invariant (r : FileComparisonResult.t) : Prop :=
  (FileComparisonResult.classification r = FileComparisonResult.IN_BOTH →
     is_Some (FileComparisonResult.modified_time_comparison r) ∧
     is_Some (FileComparisonResult.size_comparison r)) ∧
  (is_Some (FileComparisonResult.is_content_same r) ↔
     FileComparisonResult.size_comparison r = Some 0) ∧
  (FileComparisonResult.classification r = FileComparisonResult.ONLY_IN_DIR1 ∨
   FileComparisonResult.classification r = FileComparisonResult.ONLY_IN_DIR2 →
     FileComparisonResult.modified_time_comparison r = None ∧
     FileComparisonResult.size_comparison r = None ∧
     FileComparisonResult.is_content_same r = None).

(** A record of an entry found in both trees for which [update] finds no
    difference to count. *)
Definition no_difference (r : FileComparisonResult.t) : bool :=
  bool_decide (FileComparisonResult.classification r = FileComparisonResult.IN_BOTH) &&
  bool_decide (FileComparisonResult.modified_time_comparison r ≠ Some 1) &&
  bool_decide (FileComparisonResult.modified_time_comparison r ≠ Some (-1)) &&
  bool_decide (FileComparisonResult.size_comparison r = Some 0) &&
  bool_decide (FileComparisonResult.is_content_same r ≠ Some false).

(** What the slot of a relative path holds once its comparison, if it needs
    one, has run. *)
Definition path_outcome (fs : fsnode) (dir1_files dir2_files : gmap string Path)
    (rel_path : string) : result FileComparisonResult.t :=
  let in_dir1 := bool_decide (is_Some (dir1_files !! rel_path)) in
  let in_dir2 := bool_decide (is_Some (dir2_files !! rel_path)) in
  if in_dir1 && negb in_dir2 then
    Ok (FileComparisonResult.__init__ rel_path FileComparisonResult.ONLY_IN_DIR1)
  else if negb in_dir1 && in_dir2 then
    Ok (FileComparisonResult.__init__ rel_path FileComparisonResult.ONLY_IN_DIR2)
  else (DirectoryComparer._compare_file_pair fs rel_path dir1_files dir2_files).2.

Definition slot_outcome (s : slot) : result FileComparisonResult.t :=
  match s with
  | SlotResult r => Ok r
  | SlotFuture f => Future.outcome f
  end.

(** In-order delivery: the values before the first exception, and that
    exception. *)
Fixpoint deliver {A} (outcomes : list (result A)) : list A * option exn :=
  match outcomes with
  | [] => ([], None)
  | Ok a :: outcomes' =>
      let '(delivered, raised) := deliver outcomes' in (a :: delivered, raised)
  | Raise e :: _ => ([], Some e)
  end.

(** A handle resolves to a file that can be read. *)
Definition can_read (fs : fsnode) (p : Path) : bool :=
  match fs_lookup fs p with
  | Some (FsFile f) => readable f
  | _ => false
  end.

(** Every file present in both trees can be stat'ed and read when it is
    compared. *)
Definition comparable (fs : fsnode) (dir1_files dir2_files : gmap string Path) : Prop :=
  map_Forall (λ rel_path p1,
    match dir2_files !! rel_path with
    | Some p2 => can_read fs p1 && can_read fs p2 = true
    | None => True
    end) dir1_files.

#[global] Instance comparable_dec fs dir1_files dir2_files :
  Decision (comparable fs dir1_files dir2_files).
Proof.
  unfold comparable. apply map_Forall_dec. intros rel_path p1.
  destruct (dir2_files !! rel_path); apply _.
Defined.

(** Full recursive traversal: resolution of a relative path through
    directories that can be listed. *)
Fixpoint walk_lookup (n : fsnode) (rel : Path) : option fsnode :=
  match rel with
  | [] => Some n
  | name :: rel' =>
      match n with
      | FsDir true es =>
          match entry_lookup name es with
          | Some c => walk_lookup c rel'
          | None => None
          end
      | _ => None
      end
  end.

(** A name contains no separator. *)
Definition slash_free (name : string) : Prop :=
  "/"%char ∉ String.list_ascii_of_string name.

#[global] Instance slash_free_dec (name : string) : Decision (slash_free name).
Proof. unfold slash_free. apply _. Defined.

(** A well-formed tree: in every directory the names are distinct and
    contain no separator. *)
Inductive wf_fs : fsnode → Prop :=
| wf_file f : wf_fs (FsFile f)
| wf_dir listable es :
    NoDup es.*1 →
    Forall (λ e, slash_free e.1 ∧ wf_fs e.2) es →
    wf_fs (FsDir listable es).

(** Well-formedness of a concrete tree, by evaluation. *)
Ltac solve_wf_fs :=
  repeat first
    [ apply wf_file
    | apply wf_dir; simpl
    | apply Forall_nil_2
    | apply Forall_cons_2; simpl
    | split
    | compute_done ].

(** The relative paths of the files the scanner visits under a node, in the
    order of the visit. *)
Fixpoint walk_rel (rel : Path) (n : fsnode) : list Path :=
  match n with
  | FsFile _ => []
  | FsDir false _ => []
  | FsDir true es =>
      ((λ name, rel ++ [name]) <$> os.filenames es) ++
      flat_map (λ e, if is_FsDir e.2 then walk_rel (rel ++ [e.1]) e.2 else []) es
  end.

(** One step of the scanner: the entry made for a relative path. *)
Definition record_file (base : Path) (file_map : gmap string Path) (rel : Path)
  : gmap string Path :=
  <[pathlib.str rel := base ++ rel]> file_map.

(** The body of the outer loop of the scanner. *)
Definition scan_body (base : Path) :=
  λ (file_map : gmap string Path) (triple : Path * list string * list string),
    let '(dirpath, _, filenames) := triple in
    for_each (λ (file_map : gmap string Path) filename,
      let full_path := pathlib.joinpath dirpath filename in
      match pathlib.relative_to full_path base with
      | Ok relative_path => Ok (<[pathlib.str relative_path := full_path]> file_map)
      | Raise e => Raise e
      end) file_map filenames.

(** ** Example trees *)

Definition bytes_abc : list Byte.byte := [Byte.x61; Byte.x62; Byte.x63].
Definition bytes_abd : list Byte.byte := [Byte.x61; Byte.x62; Byte.x64].
Definition bytes_hello : list Byte.byte :=
  [Byte.x68; Byte.x65; Byte.x6c; Byte.x6c; Byte.x6f].

Definition file_abc : file := mkfile (7 # 2) 3 bytes_abc true.
Definition file_abd : file := mkfile (7 # 2) 3 bytes_abd true.
Definition file_hello : file := mkfile (9 # 2) 5 bytes_hello true.
Definition file_locked : file := mkfile (7 # 2) 3 bytes_abc false.

(** Two readable trees [L] and [R], and a directory [U] that cannot be
    listed. *)
Definition example_fs : fsnode :=
  FsDir true
    [ ("L", FsDir true
              [ ("a.txt", FsFile file_abc);
                ("b.txt", FsFile file_hello);
                ("sub", FsDir true [ (".hidden", FsFile file_abc);
                                     ("z.txt", FsFile file_abc) ]) ]);
      ("R", FsDir true
              [ ("a.txt", FsFile file_abd);
                ("b.txt", FsFile file_abc);
                ("sub", FsDir true [ ("z.txt", FsFile file_abc) ]);
                ("x", FsDir true [ ("y", FsDir true [ ("z.txt", FsFile file_hello) ]) ]) ]);
      ("U", FsDir false [ ("a.txt", FsFile file_abc) ]) ].

(** The same trees after [sub/z.txt] has lost its read permission in [L]. *)
Definition locked_fs : fsnode :=
  FsDir true
    [ ("L", FsDir true
              [ ("a.txt", FsFile file_abc);
                ("b.txt", FsFile file_hello);
                ("sub", FsDir true [ (".hidden", FsFile file_abc);
                                     ("z.txt", FsFile file_locked) ]) ]);
      ("R", FsDir true
              [ ("a.txt", FsFile file_abd);
                ("b.txt", FsFile file_abc);
                ("sub", FsDir true [ ("z.txt", FsFile file_abc) ]);
                ("x", FsDir true [ ("y", FsDir true [ ("z.txt", FsFile file_hello) ]) ]) ]);
      ("U", FsDir false [ ("a.txt", FsFile file_abc) ]) ].

(** The scans of [L] and [R] in the example tree. *)
Definition example_dir1_files : gmap string Path :=
  list_to_map
    [ ("a.txt", ["L"; "a.txt"]); ("b.txt", ["L"; "b.txt"]);
      ("sub/.hidden", ["L"; "sub"; ".hidden"]);
      ("sub/z.txt", ["L"; "sub"; "z.txt"]) ].

Definition example_dir2_files : gmap string Path :=
  list_to_map
    [ ("a.txt", ["R"; "a.txt"]); ("b.txt", ["R"; "b.txt"]);
      ("sub/z.txt", ["R"; "sub"; "z.txt"]);
      ("x/y/z.txt", ["R"; "x"; "y"; "z.txt"]) ].

(** The records of the example comparison, in sorted order. *)
Definition example_records : list FileComparisonResult.t :=
  [ FileComparisonResult.mk "a.txt" FileComparisonResult.IN_BOTH (Some 0) (Some 0) (Some false);
    FileComparisonResult.mk "b.txt" FileComparisonResult.IN_BOTH (Some 1) (Some 1) None;
    FileComparisonResult.mk "sub/.hidden" FileComparisonResult.ONLY_IN_DIR1 None None None;
    FileComparisonResult.mk "sub/z.txt" FileComparisonResult.IN_BOTH (Some 0) (Some 0) (Some true);
    FileComparisonResult.mk "x/y/z.txt" FileComparisonResult.ONLY_IN_DIR2 None None None ].

(** No worker makes progress before the dispatching thread looks. *)
Definition idle_schedule : schedule := λ _, [].

(** Workers start and finish everything between any two observations. *)
Definition eager_schedule : schedule :=
  λ _, [Start; Start; Start; Start; Finish 0; Finish 1; Finish 2; Finish 3;
        Finish 4; Finish 5; Finish 6; Finish 7].

(** ** Vocabulary of the further properties *)

(** The record of the same entry seen from the other side: the two one-sided
    classifications are exchanged and the two comparisons change sign. *)
Definition mirror (r : FileComparisonResult.t) : FileComparisonResult.t :=
  FileComparisonResult.mk (FileComparisonResult.relative_path r)
    (if bool_decide (FileComparisonResult.classification r =
                     FileComparisonResult.ONLY_IN_DIR1)
     then FileComparisonResult.ONLY_IN_DIR2
     else if bool_decide (FileComparisonResult.classification r =
                          FileComparisonResult.ONLY_IN_DIR2)
     then FileComparisonResult.ONLY_IN_DIR1
     else FileComparisonResult.classification r)
    (Z.opp <$> FileComparisonResult.modified_time_comparison r)
    (Z.opp <$> FileComparisonResult.size_comparison r)
    (FileComparisonResult.is_content_same r).

(** A path resolves to a directory that can be listed. *)
Definition can_list (fs : fsnode) (p : Path) : bool :=
  match fs_lookup fs p with
  | Some (FsDir true _) => true
  | _ => false
  end.

(** No task of the pool is still waiting for a worker. *)
Definition all_started (pool : ThreadPoolExecutor.t) : Prop :=
  Forall (λ s, s ≠ PENDING) (ThreadPoolExecutor.futures pool).

#[global] Instance all_started_dec pool : Decision (all_started pool).
Proof. unfold all_started. apply _. Defined.

(** A slot of the queue refers to a task of the pool. *)
Definition slot_in_pool (pool : ThreadPoolExecutor.t) (s : slot) : Prop :=
  match s with
  | SlotResult _ => True
  | SlotFuture f => (Future.id f < length (ThreadPoolExecutor.futures pool))%nat
  end.

#[global] Instance slot_in_pool_dec pool s : Decision (slot_in_pool pool s).
Proof. destruct s; simpl; apply _. Defined.

(** The tasks submitted to the pool so far, in order. *)
Definition submitted (σ : dstate) : list nat :=
  omap (λ ev, match ev with EvSubmit i => Some i | _ => None end) (trace σ).

(** The number of records of a stream that pass a test. *)
Definition tally (test : FileComparisonResult.t → bool)
    (rs : list FileComparisonResult.t) : nat :=
  length (filter (λ r, test r = true) rs).

(** The tests behind the seven counters of the summary. *)
Definition has_class (c : Z) (r : FileComparisonResult.t) : bool :=
  bool_decide (FileComparisonResult.classification r = c).

Definition is_dir1_newer (r : FileComparisonResult.t) : bool :=
  has_class FileComparisonResult.IN_BOTH r &&
  bool_decide (FileComparisonResult.modified_time_comparison r = Some 1).

Definition is_dir2_newer (r : FileComparisonResult.t) : bool :=
  has_class FileComparisonResult.IN_BOTH r &&
  bool_decide (FileComparisonResult.modified_time_comparison r = Some (-1)).

Definition same_time (r : FileComparisonResult.t) : bool :=
  has_class FileComparisonResult.IN_BOTH r &&
  bool_decide (FileComparisonResult.modified_time_comparison r ≠ Some 1) &&
  bool_decide (FileComparisonResult.modified_time_comparison r ≠ Some (-1)).

Definition is_same_time_diff_size (r : FileComparisonResult.t) : bool :=
  same_time r && bool_decide (FileComparisonResult.size_comparison r ≠ Some 0).

Definition is_same_time_size_diff_content (r : FileComparisonResult.t) : bool :=
  same_time r && bool_decide (FileComparisonResult.size_comparison r = Some 0) &&
  bool_decide (FileComparisonResult.is_content_same r = Some false).

(** * Properties *)

(** ** The summary accumulator *)

Section Summary.
Import FileComparisonResult ComparisonSummary.

Lemma update_in_both (s : ComparisonSummary.t) (r : FileComparisonResult.t) :
  in_both (update s r) =
  (in_both s + if bool_decide (classification r = IN_BOTH) then 1 else 0)%nat.
Proof.
  unfold update, ONLY_IN_DIR1, ONLY_IN_DIR2, IN_BOTH.
  destruct r as [p c m z b]; simpl.
  repeat (case_bool_decide; simpl); try lia; congruence.
Qed.

Lemma update_sub_counters (s : ComparisonSummary.t) (r : FileComparisonResult.t) :
  sub_counters (update s r) =
  (sub_counters s +
   if bool_decide (classification r = IN_BOTH) && negb (no_difference r)
   then 1 else 0)%nat.
Proof.
  unfold update, no_difference, sub_counters, ONLY_IN_DIR1, ONLY_IN_DIR2, IN_BOTH.
  destruct r as [p c m z b]; simpl.
  repeat (case_bool_decide; simpl); try lia; congruence.
Qed.

Lemma update_monotone (s : ComparisonSummary.t) (r : FileComparisonResult.t) :
  (dir1_newer s ≤ dir1_newer (update s r) ∧
   dir2_newer s ≤ dir2_newer (update s r) ∧
   same_time_diff_size s ≤ same_time_diff_size (update s r) ∧
   same_time_size_diff_content s ≤ same_time_size_diff_content (update s r))%nat.
Proof.
  unfold update. destruct r as [p c m z b]; simpl.
  repeat (case_bool_decide; simpl); lia.
Qed.

(** On a record that satisfies the invariants and whose comparisons are
    signs, [update] finds no difference exactly when the pair is
    identical. *)
Lemma no_difference_is_identical (r : FileComparisonResult.t) :
  record_invariant r →
  (∀ c, modified_time_comparison r = Some c → c = -1 ∨ c = 0 ∨ c = 1) →
  no_difference r = is_identical r.
Proof.
  intros (Hboth & Hcontent & _) Hsign.
  unfold no_difference, is_identical.
  destruct (decide (classification r = IN_BOTH)) as [Hc|Hc];
    [|rewrite !(bool_decide_eq_false_2 _ Hc); done].
  rewrite !(bool_decide_eq_true_2 _ Hc). simpl.
  destruct (Hboth Hc) as [[m Hm] [z Hz]].
  destruct (decide (size_comparison r = Some 0)) as [Hs|Hs].
  - rewrite !(bool_decide_eq_true_2 _ Hs).
    destruct (proj2 Hcontent Hs) as [b Hb]. rewrite Hm, Hb.
    destruct (Hsign m Hm) as [->| [->| ->]], b; done.
  - rewrite !(bool_decide_eq_false_2 _ Hs). by rewrite !andb_false_r.
Qed.

(** C6, as stated, fails: the record of an identical pair is counted in
    [in_both] and in none of the four sub-counters. *)
Lemma C6_identical_pair_in_no_sub_counter :
  let r := FileComparisonResult.mk "a.txt" IN_BOTH (Some 0) (Some 0) (Some true) in
  let s := update ComparisonSummary.__init__ r in
  is_identical r = true ∧
  in_both s = S (in_both ComparisonSummary.__init__) ∧
  dir1_newer s = 0%nat ∧ dir2_newer s = 0%nat ∧
  same_time_diff_size s = 0%nat ∧ same_time_size_diff_content s = 0%nat ∧
  ¬ (sub_counters s = S (sub_counters ComparisonSummary.__init__)).
Proof. vm_compute. repeat split; congruence. Qed.

(** C6 (amended): the four sub-counters never overlap, and their only gap is
    the entries with no difference to count. Whatever the accumulator and the
    record, [update] adds one to [in_both] exactly for an entry found in both
    trees; it lowers no sub-counter; and it adds one to the sum of the four
    sub-counters, hence to exactly one of them, when such an entry shows a
    difference, and nothing otherwise. Over a whole stream, [in_both] is the
    sum of the four sub-counters plus the number of entries without
    difference. *)
Theorem C6_sub_counters_partition_differing_pairs :
  (∀ (s : ComparisonSummary.t) (r : FileComparisonResult.t),
     in_both (update s r) =
       (in_both s + if bool_decide (classification r = IN_BOTH) then 1 else 0)%nat ∧
     sub_counters (update s r) =
       (sub_counters s +
        if bool_decide (classification r = IN_BOTH) && negb (no_difference r)
        then 1 else 0)%nat ∧
     (dir1_newer s ≤ dir1_newer (update s r))%nat ∧
     (dir2_newer s ≤ dir2_newer (update s r))%nat ∧
     (same_time_diff_size s ≤ same_time_diff_size (update s r))%nat ∧
     (same_time_size_diff_content s ≤ same_time_size_diff_content (update s r))%nat) ∧
  (∀ rs : list FileComparisonResult.t,
     let s := update_all ComparisonSummary.__init__ rs in
     in_both s = (sub_counters s + length (filter (λ r, no_difference r = true) rs))%nat).
Proof.
  split.
  - intros s r. destruct (update_monotone s r) as (H1 & H2 & H3 & H4).
    rewrite update_in_both, update_sub_counters. repeat split; assumption.
  - intros rs. unfold update_all.
    assert (∀ s0, in_both (foldl update s0 rs) + sub_counters s0 =
                  sub_counters (foldl update s0 rs) + in_both s0 +
                  length (filter (λ r, no_difference r = true) rs))%nat as Hgen.
    { induction rs as [|r rs IH]; intros s0; simpl; [lia|].
      specialize (IH (update s0 r)).
      rewrite update_in_both, update_sub_counters in IH.
      rewrite filter_cons.
      destruct (no_difference r) eqn:Hd.
      - rewrite decide_True by done.
        assert (bool_decide (classification r = IN_BOTH) = true) as Hc.
        { unfold no_difference in Hd. rewrite !andb_true_iff in Hd. tauto. }
        rewrite Hc in IH. simpl in *. lia.
      - rewrite decide_False by done.
        destruct (bool_decide (classification r = IN_BOTH)); simpl in *; lia. }
    specialize (Hgen ComparisonSummary.__init__). simpl in *.
    change (sub_counters ComparisonSummary.__init__) with 0%nat in Hgen.
    change (in_both ComparisonSummary.__init__) with 0%nat in Hgen. lia.
Qed.

End Summary.

(** ** The pair comparator *)

Section PairComparator.
Import FileComparisonResult DirectoryComparer.

Lemma _compare_Z_sgn (a b : Z) : _compare a b = Z.sgn (a - b).
Proof.
  unfold _compare, py_gt, Z_PyOrd.
  destruct (Z.ltb_spec b a); [by rewrite Z.sgn_pos by lia|].
  destruct (Z.ltb_spec a b); [by rewrite Z.sgn_neg by lia|].
  by replace (a - b) with 0 by lia.
Qed.

Lemma _compare_Q_sign (a b : Q) : _compare a b = sign_Q (a - b)%Q.
Proof.
  unfold _compare, py_gt, Q_PyOrd, sign_Q, Qle_bool.
  destruct a as [an ad], b as [bn bd]; simpl.
  destruct (Z.leb_spec (an * Z.pos bd) (bn * Z.pos ad)); simpl.
  - destruct (Z.leb_spec (bn * Z.pos ad) (an * Z.pos bd)); simpl.
    + by replace (an * Z.pos bd + - bn * Z.pos ad) with 0 by lia.
    + by rewrite Z.sgn_neg by lia.
  - by rewrite Z.sgn_pos by lia.
Qed.

Lemma _compare_Z_zero (a b : Z) : _compare a b = 0 ↔ a = b.
Proof. rewrite _compare_Z_sgn, Z.sgn_null_iff. lia. Qed.

(** The record built by a comparison always satisfies the invariants. *)
Lemma _compare_file_pair_invariant fs rel_path dir1_files dir2_files log r :
  _compare_file_pair fs rel_path dir1_files dir2_files = (log, Ok r) →
  relative_path r = rel_path ∧ classification r = IN_BOTH ∧ record_invariant r ∧
  (∀ c, modified_time_comparison r = Some c → c = -1 ∨ c = 0 ∨ c = 1).
Proof.
  unfold _compare_file_pair, getitem, stat, filecmp.cmp, read_all, stat.
  destruct (dir1_files !! rel_path) as [p1|]; simpl; [|done].
  destruct (dir2_files !! rel_path) as [p2|]; simpl; [|done].
  destruct (fs_lookup fs p1) as [[f1|]|]; simpl; try done.
  destruct (fs_lookup fs p2) as [[f2|]|]; simpl; try done.
  assert (∀ c, Some (_compare (st_mtime f1) (st_mtime f2)) = Some c →
               c = -1 ∨ c = 0 ∨ c = 1) as Hsign.
  { intros c [= <-]. unfold _compare. repeat case_match; auto. }
  assert (∀ m z c,
            (∀ k, m = Some k → k = -1 ∨ k = 0 ∨ k = 1) →
            (is_Some c ↔ Some z = Some 0) →
            let r' := FileComparisonResult.mk rel_path IN_BOTH m (Some z) c in
            is_Some m →
            relative_path r' = rel_path ∧ classification r' = IN_BOTH ∧
            record_invariant r' ∧
            (∀ k, modified_time_comparison r' = Some k → k = -1 ∨ k = 0 ∨ k = 1))
    as Hrecord.
  { intros m z c Hm Hc r' Hsome. unfold record_invariant; simpl.
    split_and!; try done; try by eauto.
    intros [Hk|Hk]; discriminate Hk. }
  case_bool_decide as Hsz; simpl.
  - case_bool_decide as Hne; simpl.
    + intros [= <- <-]. apply Hrecord; by eauto.
    + destruct (readable f1), (readable f2); simpl; try done.
      intros [= <- <-]. apply Hrecord; by eauto.
  - intros [= <- <-]. apply Hrecord; [done| |by eauto].
    split; [by intros [? ?]|done].
Qed.

(** C4: for two handles of one relative path that resolve to files, the
    comparison yields a record classified as in both, whose time and size
    comparisons are the signs of the differences. With different sizes the
    content comparison stays unset and no file content is read, whether or
    not the files can be read. With equal sizes and readable files, the
    content comparison is the equality of the two byte sequences, both of
    which are read in full. *)
Theorem C4_pair_comparator_contract
    (fs : fsnode) (rel_path : string) (dir1_files dir2_files : gmap string Path)
    (p1 p2 : Path) (f1 f2 : file) :
  dir1_files !! rel_path = Some p1 →
  dir2_files !! rel_path = Some p2 →
  fs_lookup fs p1 = Some (FsFile f1) →
  fs_lookup fs p2 = Some (FsFile f2) →
  let mtime_comparison := sign_Q (st_mtime f1 - st_mtime f2)%Q in
  let size_comparison := Z.sgn (st_size f1 - st_size f2) in
  (size_comparison ≠ 0 →
     ∃ log,
       _compare_file_pair fs rel_path dir1_files dir2_files =
         (log, Ok (FileComparisonResult.mk rel_path IN_BOTH
                     (Some mtime_comparison) (Some size_comparison) None)) ∧
       ∀ p, IoRead p ∉ log) ∧
  (size_comparison = 0 → readable f1 = true → readable f2 = true →
     ∃ log,
       _compare_file_pair fs rel_path dir1_files dir2_files =
         (log, Ok (FileComparisonResult.mk rel_path IN_BOTH
                     (Some mtime_comparison) (Some size_comparison)
                     (Some (bool_decide (content f1 = content f2))))) ∧
       IoRead p1 ∈ log ∧ IoRead p2 ∈ log).
Proof.
  intros H1 H2 Hf1 Hf2 mtime_comparison size_comparison.
  subst mtime_comparison size_comparison.
  rewrite <- (_compare_Q_sign (st_mtime f1) (st_mtime f2)).
  rewrite <- (_compare_Z_sgn (st_size f1) (st_size f2)).
  unfold _compare_file_pair, getitem, filecmp.cmp, read_all, stat.
  rewrite H1, H2; simpl. rewrite Hf1, Hf2; simpl. split.
  - intros Hne. rewrite bool_decide_eq_false_2 by congruence. simpl.
    eexists; split; [reflexivity|].
    intros p Hin. rewrite !elem_of_cons, elem_of_nil in Hin.
    destruct Hin as [?|[?|?]]; done.
  - intros Heq Hr1 Hr2. rewrite Heq. simpl.
    apply (proj1 (_compare_Z_zero _ _)) in Heq.
    rewrite bool_decide_eq_false_2 by congruence. simpl.
    rewrite Hr1, Hr2. simpl.
    eexists; split; [reflexivity|].
    rewrite !elem_of_cons. by auto 10.
Qed.

(** A witness of C4 with equal sizes and different bytes ([a.txt]) . *)
Lemma C4_pair_comparator_contract_witness :
  ∃ log,
    _compare_file_pair example_fs "a.txt"
      {[ "a.txt" := ["L"; "a.txt"] ]} {[ "a.txt" := ["R"; "a.txt"] ]} =
      (log, Ok (FileComparisonResult.mk "a.txt" IN_BOTH (Some 0) (Some 0) (Some false))) ∧
    IoRead ["L"; "a.txt"] ∈ log ∧ IoRead ["R"; "a.txt"] ∈ log.
Proof.
  refine (proj2 (C4_pair_comparator_contract example_fs "a.txt"
            {[ "a.txt" := ["L"; "a.txt"] ]} {[ "a.txt" := ["R"; "a.txt"] ]}
            ["L"; "a.txt"] ["R"; "a.txt"] file_abc file_abd _ _ _ _) _ _ _);
    vm_compute; reflexivity.
Defined.

End PairComparator.

(** ** The constructor and the worker pool *)

(** C10: a [max_workers] that is zero or negative is accepted; the comparer
    built from it is the one built from [0], and entering it creates the pool
    with the default number of workers. *)
Theorem C10_nonpositive_max_workers_is_default
    (cpu_count : nat) (dir1 dir2 : string) (max_workers : Z) :
  max_workers ≤ 0 →
  DirectoryComparer.__init__ dir1 dir2 max_workers =
    DirectoryComparer.__init__ dir1 dir2 0 ∧
  DirectoryComparer.__enter__ cpu_count
      (DirectoryComparer.__init__ dir1 dir2 max_workers) =
    Ok (ThreadPoolExecutor.mk (ThreadPoolExecutor.default_workers cpu_count) []).
Proof.
  intros Hle. unfold DirectoryComparer.__init__, DirectoryComparer.__enter__.
  destruct (Z.ltb_spec 0 max_workers); [lia|]. done.
Qed.

Lemma C10_nonpositive_max_workers_is_default_witness :
  DirectoryComparer.__init__ "L" "R" (-3) = DirectoryComparer.__init__ "L" "R" 0 ∧
  DirectoryComparer.__enter__ 4 (DirectoryComparer.__init__ "L" "R" (-3)) =
    Ok (ThreadPoolExecutor.mk 8 []).
Proof.
  apply (C10_nonpositive_max_workers_is_default 4 "L" "R" (-3)). lia.
Defined.

(** ** The tree scanner *)

Section Scanner.
Import DirectoryComparer.

Lemma fsnode_nested_ind (P : fsnode → Prop) :
  (∀ f, P (FsFile f)) →
  (∀ listable es, Forall (λ e, P e.2) es → P (FsDir listable es)) →
  ∀ n, P n.
Proof.
  intros Hfile Hdir. fix IH 1. intros [f|listable es]; [apply Hfile|].
  apply Hdir. induction es as [|[name c] es IHes]; constructor; [apply IH|apply IHes].
Qed.

Lemma relative_to_app (base rel : Path) : pathlib.relative_to (base ++ rel) base = Ok rel.
Proof.
  induction base as [|b base IH]; simpl; [done|].
  by rewrite bool_decide_eq_true_2.
Qed.

Lemma for_each_app {A S} (body : S → A → result S) (s : S) (l1 l2 : list A) :
  for_each body s (l1 ++ l2) =
  match for_each body s l1 with
  | Ok s' => for_each body s' l2
  | Raise e => Raise e
  end.
Proof.
  revert s. induction l1 as [|a l1 IH]; intros s; simpl; [done|].
  destruct (body s a); [apply IH|done].
Qed.

Lemma scan_filenames (base rel : Path) (names : list string) (m : gmap string Path) :
  for_each (λ (file_map : gmap string Path) filename,
      let full_path := pathlib.joinpath (base ++ rel) filename in
      match pathlib.relative_to full_path base with
      | Ok relative_path => Ok (<[pathlib.str relative_path := full_path]> file_map)
      | Raise e => Raise e
      end) m names =
  Ok (foldl (record_file base) m ((λ name, rel ++ [name]) <$> names)).
Proof.
  revert m. induction names as [|name names IH]; intros m; simpl; [done|].
  unfold pathlib.joinpath. rewrite <- (assoc_L (++)), relative_to_app.
  rewrite IH. done.
Qed.

Lemma scan_walk_node (base : Path) (n : fsnode) :
  ∀ (rel : Path) (m : gmap string Path),
    for_each (scan_body base) m (os.walk_node (base ++ rel) n) =
    Ok (foldl (record_file base) m (walk_rel rel n)).
Proof.
  induction n as [f|listable es IH] using fsnode_nested_ind; intros rel m; [done|].
  destruct listable; [|done]. simpl.
  rewrite scan_filenames, foldl_app.
  generalize (foldl (record_file base) m ((λ name, rel ++ [name]) <$> os.filenames es)).
  clear m. induction IH as [|[name c] es Hc _ IHes]; intros m; simpl; [done|].
  rewrite for_each_app, foldl_app.
  destruct (is_FsDir c); simpl.
  - rewrite <- (assoc_L (++)), Hc. apply IHes.
  - apply IHes.
Qed.

Lemma _get_files_in_directory_walk_rel (fs : fsnode) (base : Path) (n : fsnode) :
  fs_lookup fs base = Some n →
  _get_files_in_directory fs base = Ok (foldl (record_file base) ∅ (walk_rel [] n)).
Proof.
  intros Hn. unfold _get_files_in_directory, os.walk. rewrite Hn.
  rewrite <- (scan_walk_node base n [] ∅), (right_id_L [] (++)). done.
Qed.

(** The scanner never raises. *)
Lemma _get_files_in_directory_total (fs : fsnode) (base : Path) :
  ∃ m, _get_files_in_directory fs base = Ok m.
Proof.
  destruct (fs_lookup fs base) as [n|] eqn:Hn.
  - eexists. by apply _get_files_in_directory_walk_rel.
  - exists ∅. unfold _get_files_in_directory, os.walk. by rewrite Hn.
Qed.

Lemma entry_lookup_elem_of (name : string) (c : fsnode) (es : list (string * fsnode)) :
  NoDup es.*1 → entry_lookup name es = Some c ↔ (name, c) ∈ es.
Proof.
  induction es as [|[name' c'] es IH]; simpl; intros Hnd.
  - split; [done|by intros ?%elem_of_nil].
  - apply NoDup_cons in Hnd as [Hnotin Hnd]. rewrite elem_of_cons.
    case_bool_decide as Hname.
    + subst name'. split; [intros [= ->]; by left|].
      intros [[= ->]|Hin]; [done|].
      destruct Hnotin. apply list_elem_of_fmap. by exists (name, c).
    + rewrite (IH Hnd). split; [by right|]. intros [[= ? ?]|Hin]; [by subst|done].
Qed.

Lemma elem_of_filenames (name : string) (es : list (string * fsnode)) :
  name ∈ os.filenames es ↔ ∃ f, (name, FsFile f) ∈ es.
Proof.
  unfold os.filenames. rewrite list_elem_of_fmap. split.
  - intros ([name' c] & -> & Hin). apply list_elem_of_filter in Hin as [Hfile Hin].
    destruct c as [f|]; [by exists f|done].
  - intros [f Hin]. exists (name, FsFile f). split; [done|].
    by apply list_elem_of_filter.
Qed.

Lemma walk_rel_spec (n : fsnode) :
  wf_fs n →
  ∀ rel r,
    r ∈ walk_rel rel n ↔
    ∃ r' f, r' ≠ [] ∧ r = rel ++ r' ∧ walk_lookup n r' = Some (FsFile f).
Proof.
  induction n as [f|listable es IH] using fsnode_nested_ind; intros Hwf rel r.
  { simpl. split; [by intros ?%elem_of_nil|].
    intros ([|name r'] & f' & Hne & _ & Hl); done. }
  destruct listable; simpl; cycle 1.
  { split; [by intros ?%elem_of_nil|].
    intros ([|name r'] & f' & Hne & _ & Hl); done. }
  inversion_clear Hwf as [|? ? Hnd Hall].
  rewrite Forall_forall in IH, Hall.
  rewrite elem_of_app, list_elem_of_fmap, (list_elem_of_In (flat_map _ _)), in_flat_map.
  split.
  - intros [(name & -> & Hin)|([name c] & Hin & Hr)].
    + apply elem_of_filenames in Hin as [f Hin].
      exists [name], f. split_and!; [done..|]. simpl.
      by rewrite (proj2 (entry_lookup_elem_of name (FsFile f) es Hnd) Hin).
    + apply list_elem_of_In in Hin, Hr. simpl in Hr.
      destruct (is_FsDir c) eqn:Hdir; [|by apply elem_of_nil in Hr].
      apply (IH _ Hin (proj2 (Hall _ Hin))) in Hr as (r' & f & Hne & -> & Hl).
      exists (name :: r'), f. split_and!; [done|by rewrite <- (assoc_L (++))|].
      simpl. by rewrite (proj2 (entry_lookup_elem_of name c es Hnd) Hin).
  - intros ([|name r'] & f & Hne & -> & Hl); [done|]. simpl in Hl.
    destruct (entry_lookup name es) as [c|] eqn:Hc; [|done].
    apply (entry_lookup_elem_of _ _ _ Hnd) in Hc.
    destruct c as [f'|listable' es'].
    + left. exists name. destruct r'; [|done]. split; [done|].
      apply elem_of_filenames. by exists f'.
    + right. exists (name, FsDir listable' es'). split; [by apply list_elem_of_In|].
      apply list_elem_of_In. simpl.
      apply (IH _ Hc (proj2 (Hall _ Hc))).
      exists r', f. split_and!; [by destruct r'|by rewrite <- (assoc_L (++))|done].
Qed.

Lemma walk_lookup_slash_free (n : fsnode) :
  wf_fs n → ∀ rel c, walk_lookup n rel = Some c → Forall slash_free rel ∧ wf_fs c.
Proof.
  induction n as [f|listable es IH] using fsnode_nested_ind; intros Hwf rel c Hl.
  { destruct rel; simpl in Hl; [|done]. injection Hl as <-. by split. }
  destruct rel as [|name rel]; simpl in Hl; [injection Hl as <-; by split|].
  destruct listable; [|done].
  inversion_clear Hwf as [|? ? Hnd Hall].
  rewrite Forall_forall in IH, Hall.
  destruct (entry_lookup name es) as [c'|] eqn:Hc; [|done].
  apply (entry_lookup_elem_of _ _ _ Hnd) in Hc.
  destruct (Hall _ Hc) as [Hname Hwf']. simpl in *.
  destruct (IH _ Hc Hwf' _ _ Hl) as [Hrel Hwfc]. split; [by constructor|done].
Qed.

Lemma slash_free_cons (c : ascii) (s : string) :
  slash_free (String c s) ↔ c ≠ "/"%char ∧ slash_free s.
Proof.
  unfold slash_free. simpl. rewrite not_elem_of_cons.
  split; intros [Hc Hs]; (split; [congruence|done]).
Qed.

Lemma slash_free_not_joined (x y t : string) :
  slash_free x → x ≠ y +:+ String "/" t.
Proof.
  revert x. induction y as [|c y IH]; intros x Hx Heq; simpl in Heq; subst x.
  - apply slash_free_cons in Hx as [Hc _]. done.
  - apply slash_free_cons in Hx as [_ Hx]. by apply (IH _ Hx).
Qed.

Lemma joined_inj (x y s t : string) :
  slash_free x → slash_free y →
  x +:+ String "/" s = y +:+ String "/" t → x = y ∧ s = t.
Proof.
  revert y. induction x as [|a x IH]; intros [|c y] Hx Hy Heq; simpl in Heq.
  - by injection Heq as ->.
  - injection Heq as <- _. by apply slash_free_cons in Hy as [? _].
  - injection Heq as -> _. by apply slash_free_cons in Hx as [? _].
  - injection Heq as -> Heq.
    apply slash_free_cons in Hx as [_ Hx]. apply slash_free_cons in Hy as [_ Hy].
    destruct (IH _ Hx Hy Heq) as [-> ->]. done.
Qed.

Lemma concat_cons (name : string) (l : list string) :
  l ≠ [] →
  String.concat "/" (name :: l) = name +:+ String "/" (String.concat "/" l).
Proof. destruct l; done. Qed.

Lemma concat_slash_inj (l1 l2 : list string) :
  Forall slash_free l1 → Forall slash_free l2 → l1 ≠ [] → l2 ≠ [] →
  String.concat "/" l1 = String.concat "/" l2 → l1 = l2.
Proof.
  revert l2. induction l1 as [|x l1 IH]; intros [|y l2] H1 H2 Hne1 Hne2 Heq; try done.
  apply Forall_cons in H1 as [Hx H1]. apply Forall_cons in H2 as [Hy H2].
  destruct (decide (l1 = [])) as [->|Hl1], (decide (l2 = [])) as [->|Hl2].
  - simpl in Heq. by subst.
  - rewrite (concat_cons y l2 Hl2) in Heq. simpl in Heq.
    by apply slash_free_not_joined in Heq.
  - rewrite (concat_cons x l1 Hl1) in Heq. simpl in Heq.
    symmetry in Heq. by apply slash_free_not_joined in Heq.
  - rewrite (concat_cons x l1 Hl1), (concat_cons y l2 Hl2) in Heq.
    apply joined_inj in Heq as [-> Heq]; [|done..].
    f_equal. by apply IH.
Qed.

Lemma str_inj (l1 l2 : Path) :
  Forall slash_free l1 → Forall slash_free l2 → l1 ≠ [] → l2 ≠ [] →
  pathlib.str l1 = pathlib.str l2 → l1 = l2.
Proof.
  intros H1 H2 Hne1 Hne2 Heq. apply concat_slash_inj; try done.
  by destruct l1, l2.
Qed.

Lemma foldl_record_file_lookup (base : Path) (l : list Path) :
  (∀ r1 r2, r1 ∈ l → r2 ∈ l → pathlib.str r1 = pathlib.str r2 → r1 = r2) →
  ∀ (m : gmap string Path) key p,
    foldl (record_file base) m l !! key = Some p ↔
    (∃ r, r ∈ l ∧ key = pathlib.str r ∧ p = base ++ r) ∨
    ((∀ r, r ∈ l → key ≠ pathlib.str r) ∧ m !! key = Some p).
Proof.
  induction l as [|r0 l IH]; intros Hinj m key p; simpl.
  { split; [intros Hm; right; split; [by intros ? ?%elem_of_nil|done]|].
    intros [(r & Hin%elem_of_nil & _)|[_ Hm]]; done. }
  rewrite IH; [|intros r1 r2 Hr1 Hr2; apply Hinj; by right].
  unfold record_file at 1. split.
  - intros [(r & Hin & -> & ->)|[Hnone Hm]].
    + left. exists r. split_and!; [by right|done..].
    + apply lookup_insert_Some in Hm as [[<- <-]|[Hne Hm]].
      * left. exists r0. split_and!; [by left|done..].
      * right. split; [|done]. intros r [->|Hin]%elem_of_cons; [done|by apply Hnone].
  - intros [(r & Hin & -> & ->)|[Hnone Hm]].
    + destruct (decide (pathlib.str r ∈ pathlib.str <$> l)) as [Hex|Hnex].
      * apply list_elem_of_fmap in Hex as (r' & Heq & Hin').
        left. exists r'.
        assert (r = r') as <-; [|done].
        apply Hinj; [done|by right|done].
      * apply elem_of_cons in Hin as [->|Hin];
          [|destruct Hnex; by apply list_elem_of_fmap_2].
        right. split; [|by rewrite lookup_insert_eq].
        intros r Hr Heq. destruct Hnex. rewrite Heq. by apply list_elem_of_fmap_2.
    + right. split; [intros r Hr; apply Hnone; by right|].
      rewrite lookup_insert_ne; [done|]. intros Heq. by apply (Hnone r0); [left|].
Qed.

End Scanner.

(** C9: for a root that resolves to a directory that can be listed, in a
    well-formed tree, the scanner returns a mapping whose entries are exactly
    the files that full recursive traversal reaches: each key is the path of
    such a file relative to the root, joined with slashes, and it is mapped
    to the handle made of the root followed by that relative path. No
    condition on the name is involved, so hidden files are entries like any
    other; and the relative path of a directory is not a key. *)
Theorem C9_scanner_maps_exactly_the_reachable_files
    (fs : fsnode) (root : Path) (es : list (string * fsnode)) :
  fs_lookup fs root = Some (FsDir true es) →
  wf_fs (FsDir true es) →
  ∃ file_map,
    DirectoryComparer._get_files_in_directory fs root = Ok file_map ∧
    (∀ key handle,
       file_map !! key = Some handle ↔
       ∃ rel f, walk_lookup (FsDir true es) rel = Some (FsFile f) ∧
                key = pathlib.str rel ∧ handle = root ++ rel) ∧
    (∀ rel listable es',
       rel ≠ [] → walk_lookup (FsDir true es) rel = Some (FsDir listable es') →
       file_map !! pathlib.str rel = None).
Proof.
  intros Hroot Hwf. eexists. split; [by apply _get_files_in_directory_walk_rel|].
  assert (∀ r, r ∈ walk_rel [] (FsDir true es) ↔
               ∃ f, r ≠ [] ∧ walk_lookup (FsDir true es) r = Some (FsFile f)) as Hwalk.
  { intros r. rewrite (walk_rel_spec _ Hwf). split.
    - intros (r' & f & Hne & -> & Hl). by exists f.
    - intros (f & Hne & Hl). by exists r, f. }
  assert (∀ key handle,
    foldl (record_file root) ∅ (walk_rel [] (FsDir true es)) !! key = Some handle ↔
    ∃ rel f, walk_lookup (FsDir true es) rel = Some (FsFile f) ∧
             key = pathlib.str rel ∧ handle = root ++ rel) as Hmap.
  { intros key handle. rewrite foldl_record_file_lookup.
    - split.
      + intros [(r & Hin & -> & ->)|[_ Hin]]; [|by rewrite lookup_empty in Hin].
        apply Hwalk in Hin as (f & _ & Hl). by exists r, f.
      + intros (rel & f & Hl & -> & ->). left. exists rel. split; [|done].
        apply Hwalk. exists f. split; [|done]. by intros ->.
    - intros r1 r2 (f1 & Hne1 & Hl1)%Hwalk (f2 & Hne2 & Hl2)%Hwalk.
      apply str_inj; try done.
      + by apply (walk_lookup_slash_free _ Hwf _ _ Hl1).
      + by apply (walk_lookup_slash_free _ Hwf _ _ Hl2). }
  split; [done|].
  intros rel listable es' Hne Hl.
  destruct (foldl _ _ _ !! pathlib.str rel) as [handle|] eqn:Hkey; [|done].
  apply Hmap in Hkey as (rel' & f & Hl' & Heq & _).
  assert (rel = rel') as <-; [|congruence].
  apply str_inj; try done.
  - by apply (walk_lookup_slash_free _ Hwf _ _ Hl).
  - by apply (walk_lookup_slash_free _ Hwf _ _ Hl').
  - by intros ->.
Qed.

Lemma C9_scanner_maps_exactly_the_reachable_files_witness :
  ∃ file_map,
    DirectoryComparer._get_files_in_directory example_fs ["L"] = Ok file_map ∧
    (∀ key handle,
       file_map !! key = Some handle ↔
       ∃ rel f,
         walk_lookup
           (FsDir true
              [ ("a.txt", FsFile file_abc);
                ("b.txt", FsFile file_hello);
                ("sub", FsDir true [ (".hidden", FsFile file_abc);
                                     ("z.txt", FsFile file_abc) ]) ]) rel
           = Some (FsFile f) ∧
         key = pathlib.str rel ∧ handle = ["L"] ++ rel) ∧
    (∀ rel listable es',
       rel ≠ [] →
       walk_lookup
         (FsDir true
            [ ("a.txt", FsFile file_abc);
              ("b.txt", FsFile file_hello);
              ("sub", FsDir true [ (".hidden", FsFile file_abc);
                                   ("z.txt", FsFile file_abc) ]) ]) rel
         = Some (FsDir listable es') →
       file_map !! pathlib.str rel = None).
Proof.
  apply (C9_scanner_maps_exactly_the_reachable_files example_fs ["L"]).
  - reflexivity.
  - solve_wf_fs.
Defined.

(** The scan of the example tree [L]: the hidden file is an entry, the
    directory [sub] is not. *)
Example scan_example_L :
  DirectoryComparer._get_files_in_directory example_fs ["L"] = Ok example_dir1_files.
Proof. vm_compute. reflexivity. Qed.

Example scan_example_R :
  DirectoryComparer._get_files_in_directory example_fs ["R"] = Ok example_dir2_files.
Proof. vm_compute. reflexivity. Qed.

(** ** The pre-check of [main] *)

(** C7, as stated, fails for a root that is a directory but cannot be
    listed: the pre-check lets it pass, the scan of [U] finds nothing, and
    the comparison runs and reports every file of [R] as missing from [U]. *)
Lemma C7_unlistable_root_passes_the_pre_check :
  let out := main (mkargs "U" "R" 0 false) example_fs example_fs 4
                  idle_schedule "00:00:00" in
  fs_lookup example_fs ["U"] = Some (FsDir false [("a.txt", FsFile file_abc)]) ∧
  DirectoryComparer._get_files_in_directory example_fs ["U"] = Ok ∅ ∧
  escaped out = None ∧
  yielded <$> comparison out =
    Some [ FileComparisonResult.mk "a.txt" FileComparisonResult.ONLY_IN_DIR2 None None None;
           FileComparisonResult.mk "b.txt" FileComparisonResult.ONLY_IN_DIR2 None None None;
           FileComparisonResult.mk "sub/z.txt" FileComparisonResult.ONLY_IN_DIR2 None None None;
           FileComparisonResult.mk "x/y/z.txt" FileComparisonResult.ONLY_IN_DIR2 None None None ] ∧
  take 1 (stdout out) =
    ["a.txt: Only in R, Modified time not applicable, Content comparison not applicable"].
Proof. vm_compute. repeat split; reflexivity. Qed.

(** C7 (amended): when either root is not a directory, [main] prints one
    error line naming that root and returns: no comparer is entered, so
    nothing is scanned, compared or emitted, and no exception escapes. *)
Theorem C7_not_a_directory_stops_at_the_pre_check
    (a : args) (fs_scan fs_cmp : fsnode) (cpu_count : nat)
    (sched : schedule) (elapsed : string) :
  pathlib.is_dir fs_scan (pathlib.of_string (args_dir1 a)) = false ∨
  pathlib.is_dir fs_scan (pathlib.of_string (args_dir2 a)) = false →
  ∃ dir,
    (dir = args_dir1 a ∨ dir = args_dir2 a) ∧
    pathlib.is_dir fs_scan (pathlib.of_string dir) = false ∧
    main a fs_scan fs_cmp cpu_count sched elapsed =
      mkoutcome ["Error: Directory not found at '" +:+ dir +:+ "'"] None None.
Proof.
  intros Hnot. unfold main.
  destruct (pathlib.is_dir fs_scan (pathlib.of_string (args_dir1 a))) eqn:H1; simpl.
  - destruct Hnot as [?|H2]; [done|]. rewrite H2. simpl.
    exists (args_dir2 a). by auto.
  - exists (args_dir1 a). by auto.
Qed.

Lemma C7_not_a_directory_stops_at_the_pre_check_witness :
  ∃ dir,
    (dir = "L/a.txt" ∨ dir = "R") ∧
    pathlib.is_dir example_fs (pathlib.of_string dir) = false ∧
    main (mkargs "L/a.txt" "R" 2 false) example_fs example_fs 4 eager_schedule "00:00:00" =
      mkoutcome ["Error: Directory not found at '" +:+ dir +:+ "'"] None None.
Proof.
  apply (C7_not_a_directory_stops_at_the_pre_check
           (mkargs "L/a.txt" "R" 2 false) example_fs example_fs 4
           eager_schedule "00:00:00").
  left. vm_compute. reflexivity.
Defined.

(** ** The ordering pipeline *)

Section Pipeline.
Import FileComparisonResult DirectoryComparer.

Lemma yielded_emit (ev : event) (σ : dstate) :
  yielded (emit ev σ) =
  yielded σ ++ match ev with EvYield r => [r] | _ => [] end.
Proof. unfold yielded, emit. simpl. rewrite omap_app. by destruct ev. Qed.

Lemma yielded_tick (sched : schedule) (σ : dstate) : yielded (tick sched σ) = yielded σ.
Proof. done. Qed.

Lemma yielded_result {A} (σ σ' : dstate) (f : Future.t A) (o : result A) :
  Future.result σ f = (σ', o) → yielded σ' = yielded σ ∧ o = Future.outcome f.
Proof.
  unfold Future.result. case_match; intros [= <- <-]; [done|].
  rewrite yielded_emit. simpl. by rewrite (right_id_L [] (++)).
Qed.

Lemma yielded_submit {A} (σ σ' : dstate) (task : result A) (f : Future.t A) :
  submit σ task = (σ', f) → yielded σ' = yielded σ ∧ Future.outcome f = task.
Proof.
  unfold submit. simpl. intros [= <- <-]. rewrite yielded_emit. simpl.
  by rewrite (right_id_L [] (++)).
Qed.

Lemma deliver_app_ok {A} (rs : list A) (outcomes : list (result A)) :
  deliver ((Ok <$> rs) ++ outcomes) = (rs ++ (deliver outcomes).1, (deliver outcomes).2).
Proof.
  induction rs as [|r rs IH]; [simpl; by destruct (deliver outcomes)|].
  rewrite fmap_cons. cbn [app deliver]. by rewrite IH.
Qed.

Lemma deliver_all_ok {A} (rs : list A) : deliver (Ok <$> rs) = (rs, None).
Proof.
  rewrite <- (right_id_L [] (++) (Ok <$> rs)), deliver_app_ok. simpl.
  by rewrite (right_id_L [] (++)).
Qed.

Lemma deliver_app_raise {A} (rs : list A) (e : exn) (outcomes : list (result A)) :
  deliver ((Ok <$> rs) ++ Raise e :: outcomes) = (rs, Some e).
Proof. rewrite deliver_app_ok. simpl. by rewrite (right_id_L [] (++)). Qed.

(** What one drain hands over: the outcomes of a prefix of the queue, in
    queue order; the rest of the queue stays; an exception ends the drain at
    the slot that raised. A blocking drain leaves nothing behind. *)
Lemma yield_from_queue_spec (sched : schedule) (stop : bool) (queue : list slot) :
  ∀ σ σ' queue' raised,
    yield_from_queue sched stop queue σ = (σ', queue', raised) →
    ∃ rs,
      yielded σ' = yielded σ ++ rs ∧
      match raised with
      | None =>
          slot_outcome <$> queue = (Ok <$> rs) ++ (slot_outcome <$> queue') ∧
          (stop = false → queue' = [])
      | Some e =>
          ∃ rest, slot_outcome <$> queue = (Ok <$> rs) ++ Raise e :: rest
      end.
Proof.
  induction queue as [|[r|f] queue IH]; intros σ σ' queue' raised;
    cbn [yield_from_queue]; rewrite ?fmap_cons; cbn [slot_outcome].
  - intros [= <- <- <-]. exists []. by rewrite (right_id_L [] (++)).
  - intros Hrun. apply IH in Hrun as (rs & Hy & Hq).
    rewrite yielded_emit, <- (assoc_L (++)) in Hy. exists (r :: rs).
    split; [done|]. destruct raised as [e|].
    + destruct Hq as [rest ->]. by exists rest.
    + destruct Hq as [-> Hstop]. by split.
  - destruct (stop && Future.running (tick sched σ) f) eqn:Hstop.
    + intros [= <- <- <-]. exists []. rewrite (right_id_L [] (++)).
      split; [done|]. split; [done|]. intros ->. done.
    + destruct (Future.result (tick sched σ) f) as [σ1 [r|e]] eqn:Hres;
        apply yielded_result in Hres as [Hy1 Hout].
      * intros Hrun. apply IH in Hrun as (rs & Hy & Hq).
        rewrite yielded_emit, Hy1, yielded_tick, <- (assoc_L (++)) in Hy.
        exists (r :: rs). split; [done|]. rewrite <- Hout.
        destruct raised as [e|].
        -- destruct Hq as [rest ->]. by exists rest.
        -- destruct Hq as [-> Hs]. by split.
      * intros [= <- <- <-]. exists []. rewrite (right_id_L [] (++)).
        split; [by rewrite Hy1|]. exists (slot_outcome <$> queue). by rewrite <- Hout.
Qed.

Lemma enqueue_spec fs dir1_files dir2_files rel_path queue σ σ' queue' :
  enqueue fs dir1_files dir2_files rel_path queue σ = (σ', queue') →
  yielded σ' = yielded σ ∧
  slot_outcome <$> queue' =
    (slot_outcome <$> queue) ++ [path_outcome fs dir1_files dir2_files rel_path].
Proof.
  unfold enqueue, path_outcome.
  destruct (bool_decide (is_Some (dir1_files !! rel_path))),
           (bool_decide (is_Some (dir2_files !! rel_path))); simpl;
    try (intros [= <- <-]; by rewrite fmap_app).
  all: intros [= <- <-]; rewrite fmap_app, yielded_emit; simpl;
       by rewrite (right_id_L [] (++)).
Qed.

Lemma dispatch_spec sched fs dir1_files dir2_files (paths : list string) :
  ∀ queue σ σ' queue' raised,
    dispatch sched fs dir1_files dir2_files paths queue σ = (σ', queue', raised) →
    ∃ rs,
      yielded σ' = yielded σ ++ rs ∧
      match raised with
      | None =>
          (slot_outcome <$> queue) ++ (path_outcome fs dir1_files dir2_files <$> paths) =
          (Ok <$> rs) ++ (slot_outcome <$> queue')
      | Some e =>
          ∃ rest,
            (slot_outcome <$> queue) ++ (path_outcome fs dir1_files dir2_files <$> paths) =
            (Ok <$> rs) ++ Raise e :: rest
      end.
Proof.
  induction paths as [|rel_path paths IH]; intros queue σ σ' queue' raised;
    cbn [dispatch]; rewrite ?fmap_cons.
  - intros [= <- <- <-]. exists []. rewrite fmap_nil. by rewrite !(right_id_L [] (++)).
  - destruct (enqueue _ _ _ _ _ _) as [σ1 queue1] eqn:Henq.
    apply enqueue_spec in Henq as [Hy1 Hq1].
    destruct (yield_from_queue sched true queue1 σ1) as [[σ2 queue2] [e|]] eqn:Hdrain;
      apply yield_from_queue_spec in Hdrain as (rs & Hy2 & Hq2).
    + intros [= <- <- <-]. exists rs. split; [by rewrite Hy2, Hy1|].
      destruct Hq2 as [rest Hq2]. exists (rest ++ (path_outcome fs dir1_files dir2_files <$> paths)).
      rewrite (cons_middle _ (_ <$> queue)), (assoc_L (++)), <- Hq1, Hq2.
      by rewrite <- (assoc_L (++)).
    + destruct Hq2 as [Hq2 _]. intros Hrun.
      apply IH in Hrun as (rs' & Hy3 & Hq3).
      exists (rs ++ rs'). split; [by rewrite Hy3, Hy2, Hy1, (assoc_L (++))|].
      rewrite (cons_middle _ (_ <$> queue)), (assoc_L (++)), <- Hq1, Hq2.
      rewrite fmap_app, <- !(assoc_L (++)).
      destruct raised as [e|].
      * destruct Hq3 as [rest ->]. exists rest. by rewrite <- !(assoc_L (++)).
      * by rewrite Hq3.
Qed.

Lemma scan_spec (self : DirectoryComparer.t) fs sched σ dir1_files dir2_files :
  _get_files_in_directory fs (dir1 self) = Ok dir1_files →
  _get_files_in_directory fs (dir2 self) = Ok dir2_files →
  ∃ σ', scan self fs sched σ = (σ', Ok (dir1_files, dir2_files)) ∧
        yielded σ' = yielded σ.
Proof.
  intros H1 H2. unfold scan. rewrite H1, H2.
  destruct (submit σ (Ok dir1_files)) as [σ1 f1] eqn:Hs1.
  apply yielded_submit in Hs1 as [Hy1 Ho1].
  destruct (submit σ1 (Ok dir2_files)) as [σ2 f2] eqn:Hs2.
  apply yielded_submit in Hs2 as [Hy2 Ho2].
  destruct (Future.result (tick sched σ2) f1) as [σ3 o1] eqn:Hr1.
  apply yielded_result in Hr1 as [Hy3 ->]. rewrite Ho1.
  destruct (Future.result (tick sched σ3) f2) as [σ4 o2] eqn:Hr2.
  apply yielded_result in Hr2 as [Hy4 ->]. rewrite Ho2.
  exists σ4. split; [done|].
  by rewrite Hy4, yielded_tick, Hy3, yielded_tick, Hy2, Hy1.
Qed.

(** The pipeline delivers in order: whatever the schedule and the pool, the
    consumer receives the outcomes of the sorted paths up to the first
    exception, and that exception ends the iteration. *)
Lemma __iter___delivers (self : DirectoryComparer.t) fs_scan fs_cmp sched pool
    dir1_files dir2_files :
  _get_files_in_directory fs_scan (dir1 self) = Ok dir1_files →
  _get_files_in_directory fs_scan (dir2 self) = Ok dir2_files →
  let run := __iter__ self fs_scan fs_cmp sched pool in
  (yielded run.1, run.2) =
  deliver (path_outcome fs_cmp dir1_files dir2_files <$> all_files dir1_files dir2_files).
Proof.
  intros H1 H2. unfold __iter__.
  destruct (scan_spec self fs_scan sched (mkdstate pool 0 []) _ _ H1 H2)
    as (σ0 & -> & Hy0).
  change (yielded (mkdstate pool 0 [])) with (@nil FileComparisonResult.t) in Hy0.
  destruct (dispatch _ _ _ _ _ _ _) as [[σ1 q1] [e|]] eqn:Hd;
    apply dispatch_spec in Hd as (rs & Hy1 & Hq);
    rewrite fmap_nil, Hy0 in *; simpl in Hq, Hy1.
  - destruct Hq as [rest Hq]. simpl. by rewrite Hq, deliver_app_raise, Hy1.
  - destruct (yield_from_queue sched false q1 σ1) as [[σ2 q2] raised] eqn:Hf.
    apply yield_from_queue_spec in Hf as (rs' & Hy2 & Hq2).
    rewrite Hq. simpl. rewrite Hy2, Hy1. destruct raised as [e|].
    + destruct Hq2 as [rest ->].
      by rewrite (assoc_L (++)), <- fmap_app, deliver_app_raise.
    + destruct Hq2 as [-> Hnil]. rewrite (Hnil eq_refl), fmap_nil, (right_id_L [] (++)).
      by rewrite <- fmap_app, deliver_all_ok.
Qed.

Lemma elem_of_deliver {A} (outcomes : list (result A)) (a : A) :
  a ∈ (deliver outcomes).1 → Ok a ∈ outcomes.
Proof.
  induction outcomes as [|[a'|e] outcomes IH]; simpl.
  - by intros ?%elem_of_nil.
  - destruct (deliver outcomes) as [delivered raised]. simpl in *.
    intros [->|Hin]%elem_of_cons; [by left|]. right. by apply IH.
  - by intros ?%elem_of_nil.
Qed.

Lemma path_outcome_invariant fs dir1_files dir2_files rel_path r :
  path_outcome fs dir1_files dir2_files rel_path = Ok r →
  relative_path r = rel_path ∧ record_invariant r.
Proof.
  unfold path_outcome.
  assert (∀ c, c = ONLY_IN_DIR1 ∨ c = ONLY_IN_DIR2 →
               record_invariant (FileComparisonResult.__init__ rel_path c)) as Hinit.
  { intros c Hc. unfold record_invariant; simpl. split_and!; try done.
    intros ->. by destruct Hc. }
  repeat case_match.
  - intros [= <-]. split; [done|]. apply Hinit. by left.
  - intros [= <-]. split; [done|]. apply Hinit. by right.
  - destruct (_compare_file_pair _ _ _ _) as [log o] eqn:Hpair. simpl. intros ->.
    apply _compare_file_pair_invariant in Hpair as (Hrel & _ & Hinv & _). by split.
Qed.

Lemma all_files_elem_of (dir1_files dir2_files : gmap string Path) (rel_path : string) :
  rel_path ∈ all_files dir1_files dir2_files ↔
  is_Some (dir1_files !! rel_path) ∨ is_Some (dir2_files !! rel_path).
Proof.
  unfold all_files. rewrite merge_sort_Permutation, elem_of_elements, elem_of_union.
  by rewrite !elem_of_dom.
Qed.

Lemma all_files_sorted (dir1_files dir2_files : gmap string Path) :
  StronglySorted String.le (all_files dir1_files dir2_files) ∧
  NoDup (all_files dir1_files dir2_files).
Proof.
  unfold all_files. split.
  - apply StronglySorted_merge_sort; apply _.
  - rewrite merge_sort_Permutation. apply NoDup_elements.
Qed.

Lemma _compare_file_pair_succeeds fs rel_path dir1_files dir2_files p1 p2 :
  dir1_files !! rel_path = Some p1 → dir2_files !! rel_path = Some p2 →
  can_read fs p1 = true → can_read fs p2 = true →
  ∃ log r, _compare_file_pair fs rel_path dir1_files dir2_files = (log, Ok r).
Proof.
  intros H1 H2. unfold can_read. intros Hr1 Hr2.
  destruct (fs_lookup fs p1) as [[f1|]|] eqn:Hf1; try done.
  destruct (fs_lookup fs p2) as [[f2|]|] eqn:Hf2; try done.
  unfold _compare_file_pair, getitem, filecmp.cmp, read_all, stat.
  rewrite H1, H2; simpl. rewrite Hf1, Hf2; simpl.
  case_bool_decide; simpl; [|by eauto].
  case_bool_decide; simpl; [by eauto|].
  rewrite Hr1, Hr2. simpl. by eauto.
Qed.

(** In-order delivery hands over records of a prefix of the paths, and of all
    of them when no outcome is an exception. *)
Lemma deliver_paths fs dir1_files dir2_files (paths : list string) :
  let delivered := deliver (path_outcome fs dir1_files dir2_files <$> paths) in
  (relative_path <$> delivered.1) `prefix_of` paths ∧
  (delivered.2 = None → relative_path <$> delivered.1 = paths).
Proof.
  induction paths as [|rel_path paths [IHp IHa]]; simpl; [done|].
  destruct (path_outcome fs dir1_files dir2_files rel_path) as [r|e] eqn:Hout.
  - apply path_outcome_invariant in Hout as [Hrel _].
    destruct (deliver _) as [delivered raised]. simpl in *. rewrite Hrel. split.
    + by apply prefix_cons.
    + intros Hnone. f_equal. by apply IHa.
  - simpl. split; [apply prefix_nil|done].
Qed.

Lemma path_outcome_comparable fs dir1_files dir2_files :
  comparable fs dir1_files dir2_files →
  ∃ rs, path_outcome fs dir1_files dir2_files <$> all_files dir1_files dir2_files
          = Ok <$> rs ∧
        relative_path <$> rs = all_files dir1_files dir2_files.
Proof.
  intros Hcmp.
  assert (∀ rel_path, rel_path ∈ all_files dir1_files dir2_files →
            ∃ r, path_outcome fs dir1_files dir2_files rel_path = Ok r ∧
                 relative_path r = rel_path) as Hok.
  { intros rel_path Hin%all_files_elem_of.
    destruct (path_outcome fs dir1_files dir2_files rel_path) as [r|e] eqn:Hout.
    { exists r. split; [done|]. by apply path_outcome_invariant in Hout as [? _]. }
    exfalso. unfold path_outcome in Hout.
    destruct (dir1_files !! rel_path) as [p1|] eqn:H1,
             (dir2_files !! rel_path) as [p2|] eqn:H2; simpl in Hout.
    - specialize (Hcmp _ _ H1). simpl in Hcmp. rewrite H2 in Hcmp.
      apply andb_true_iff in Hcmp as [Hr1 Hr2].
      destruct (_compare_file_pair_succeeds fs rel_path _ _ _ _ H1 H2 Hr1 Hr2)
        as (log & r & Hpair).
      rewrite Hpair in Hout. done.
    - done.
    - done.
    - destruct Hin as [[? ?]|[? ?]]; done. }
  induction (all_files dir1_files dir2_files) as [|rel_path paths IH].
  - by exists [].
  - destruct (Hok rel_path) as (r & Hr & Hrel); [by left|].
    destruct IH as (rs & Hrs & Hrels); [intros; apply Hok; by right|].
    exists (r :: rs). rewrite !fmap_cons, Hr, Hrs, Hrel, Hrels. done.
Qed.

End Pipeline.

Section Claims.
Import FileComparisonResult DirectoryComparer.

(** C1, as stated, fails: [sub/z.txt] is in both trees with the same size
    and cannot be read in [L]. Its comparison raises, and the iteration ends
    after three of the five paths of the sorted union. *)
Lemma C1_unreadable_shared_file_truncates_the_stream :
  let run := __iter__ (DirectoryComparer.__init__ "L" "R" 2) locked_fs locked_fs
               eager_schedule (ThreadPoolExecutor.mk 2 []) in
  _get_files_in_directory locked_fs ["L"] = Ok example_dir1_files ∧
  _get_files_in_directory locked_fs ["R"] = Ok example_dir2_files ∧
  merge_sort String.le (elements (dom example_dir1_files ∪ dom example_dir2_files)) =
    ["a.txt"; "b.txt"; "sub/.hidden"; "sub/z.txt"; "x/y/z.txt"] ∧
  relative_path <$> yielded run.1 = ["a.txt"; "b.txt"; "sub/.hidden"] ∧
  run.2 = Some (PermissionError ["L"; "sub"; "z.txt"]).
Proof. split_and!; vm_compute; reflexivity. Qed.

(** C1 (amended): let [paths] be the sorted union of the key sets of the two
    scans: sorted, without repetition, with exactly the keys of either tree
    as members. For every schedule of the workers and every pool, whatever
    its size, the relative paths of the yielded records are a prefix of
    [paths]; they are all of [paths] when the iteration ends without an
    exception; and it ends so when every file present in both trees can be
    stat'ed and read at comparison time. *)
Theorem C1_emitted_paths_are_the_sorted_union
    (self : DirectoryComparer.t) (fs_scan fs_cmp : fsnode) (sched : schedule)
    (pool : ThreadPoolExecutor.t) (dir1_files dir2_files : gmap string Path) :
  _get_files_in_directory fs_scan (dir1 self) = Ok dir1_files →
  _get_files_in_directory fs_scan (dir2 self) = Ok dir2_files →
  let run := __iter__ self fs_scan fs_cmp sched pool in
  let emitted := relative_path <$> yielded run.1 in
  let paths := merge_sort String.le (elements (dom dir1_files ∪ dom dir2_files)) in
  StronglySorted String.le paths ∧
  NoDup paths ∧
  (∀ rel_path, rel_path ∈ paths ↔ rel_path ∈ dom dir1_files ∨ rel_path ∈ dom dir2_files) ∧
  emitted `prefix_of` paths ∧
  (run.2 = None → emitted = paths) ∧
  (comparable fs_cmp dir1_files dir2_files → run.2 = None ∧ emitted = paths).
Proof.
  intros H1 H2 run emitted paths.
  pose proof (__iter___delivers self fs_scan fs_cmp sched pool _ _ H1 H2) as Hrun.
  simpl in Hrun. fold run in Hrun.
  change paths with (all_files dir1_files dir2_files).
  destruct (all_files_sorted dir1_files dir2_files) as [Hsorted Hnodup].
  destruct (deliver_paths fs_cmp dir1_files dir2_files (all_files dir1_files dir2_files))
    as [Hprefix Hall].
  rewrite <- Hrun in Hprefix, Hall. simpl in Hprefix, Hall.
  split_and!; [done|done| |done|done|].
  - intros rel_path. by rewrite all_files_elem_of, !elem_of_dom.
  - intros Hcmp.
    destruct (path_outcome_comparable _ _ _ Hcmp) as (rs & Hrs & Hrel).
    rewrite Hrs, deliver_all_ok in Hrun. injection Hrun as Hy Hraised.
    split; [done|]. unfold emitted. by rewrite Hy.
Qed.

Lemma C1_emitted_paths_are_the_sorted_union_witness :
  let run := __iter__ (DirectoryComparer.__init__ "L" "R" 1) example_fs example_fs
               eager_schedule (ThreadPoolExecutor.mk 1 []) in
  let emitted := relative_path <$> yielded run.1 in
  let paths := merge_sort String.le
                 (elements (dom example_dir1_files ∪ dom example_dir2_files)) in
  StronglySorted String.le paths ∧
  NoDup paths ∧
  (∀ rel_path, rel_path ∈ paths ↔
               rel_path ∈ dom example_dir1_files ∨ rel_path ∈ dom example_dir2_files) ∧
  emitted `prefix_of` paths ∧
  (run.2 = None → emitted = paths) ∧
  (comparable example_fs example_dir1_files example_dir2_files →
   run.2 = None ∧ emitted = paths).
Proof.
  apply (C1_emitted_paths_are_the_sorted_union
           (DirectoryComparer.__init__ "L" "R" 1) example_fs example_fs
           eager_schedule (ThreadPoolExecutor.mk 1 [])
           example_dir1_files example_dir2_files).
  - vm_compute. reflexivity.
  - vm_compute. reflexivity.
Defined.

(** The example trees are comparable. *)
Example example_comparable :
  comparable example_fs example_dir1_files example_dir2_files.
Proof. compute_done. Qed.

(** The example comparison, with one worker that is slow and with eight that
    are fast: the same records in the same order. *)
Example example_run_idle :
  let run := __iter__ (DirectoryComparer.__init__ "L" "R" 1) example_fs example_fs
               idle_schedule (ThreadPoolExecutor.mk 1 []) in
  yielded run.1 = example_records ∧ run.2 = None.
Proof. vm_compute. split; reflexivity. Qed.

Example example_run_eager :
  let run := __iter__ (DirectoryComparer.__init__ "L" "R" 0) example_fs example_fs
               eager_schedule (ThreadPoolExecutor.mk 8 []) in
  yielded run.1 = example_records ∧ run.2 = None.
Proof. vm_compute. split; reflexivity. Qed.

(** C3: every record the iteration yields satisfies the record invariants,
    for every pair of trees, every schedule and every pool. *)
Theorem C3_yielded_records_satisfy_the_invariants
    (self : DirectoryComparer.t) (fs_scan fs_cmp : fsnode) (sched : schedule)
    (pool : ThreadPoolExecutor.t) :
  Forall record_invariant (yielded (__iter__ self fs_scan fs_cmp sched pool).1).
Proof.
  destruct (_get_files_in_directory_total fs_scan (dir1 self)) as [dir1_files H1].
  destruct (_get_files_in_directory_total fs_scan (dir2 self)) as [dir2_files H2].
  pose proof (__iter___delivers self fs_scan fs_cmp sched pool _ _ H1 H2) as Hrun.
  simpl in Hrun. apply Forall_forall. intros r Hin.
  apply (f_equal fst) in Hrun. simpl in Hrun. rewrite Hrun in Hin.
  apply elem_of_deliver, list_elem_of_fmap in Hin as (rel_path & Hout & _).
  symmetry in Hout. by apply path_outcome_invariant in Hout as [_ ?].
Qed.

(** C5, as stated, fails: after the scan, [sub/z.txt] loses its read
    permission in [L]. The comparison of that path raises; the iteration
    ends with that exception after the records of the three paths sorted
    before it. No record is yielded for [sub/z.txt], degraded or not, and
    [x/y/z.txt], which needs no comparison, is never reported. *)
Lemma C5_read_error_aborts_the_stream :
  let run := __iter__ (DirectoryComparer.__init__ "L" "R" 2) example_fs locked_fs
               eager_schedule (ThreadPoolExecutor.mk 2 []) in
  yielded run.1 = take 3 example_records ∧
  run.2 = Some (PermissionError ["L"; "sub"; "z.txt"]) ∧
  ("sub/z.txt" ∉ (relative_path <$> yielded run.1)) ∧
  ("x/y/z.txt" ∉ (relative_path <$> yielded run.1)).
Proof.
  split_and!;
    [ vm_compute; reflexivity | vm_compute; reflexivity
    | compute_done | compute_done ].
Qed.

(** C5 (amended): a comparison that fails is not isolated. Its exception
    ends the iteration when the turn of its path comes: the records of the
    paths sorted before it have been yielded, in order, and nothing is
    yielded for the failing path or for any path after it. *)
Theorem C5_failed_comparison_ends_the_iteration
    (self : DirectoryComparer.t) (fs_scan fs_cmp : fsnode) (sched : schedule)
    (pool : ThreadPoolExecutor.t) (dir1_files dir2_files : gmap string Path)
    (before after : list string) (rel_path : string) (e : exn)
    (rs : list FileComparisonResult.t) :
  _get_files_in_directory fs_scan (dir1 self) = Ok dir1_files →
  _get_files_in_directory fs_scan (dir2 self) = Ok dir2_files →
  all_files dir1_files dir2_files = before ++ rel_path :: after →
  path_outcome fs_cmp dir1_files dir2_files <$> before = Ok <$> rs →
  path_outcome fs_cmp dir1_files dir2_files rel_path = Raise e →
  let run := __iter__ self fs_scan fs_cmp sched pool in
  yielded run.1 = rs ∧ run.2 = Some e.
Proof.
  intros H1 H2 Hpaths Hbefore Hfail run.
  pose proof (__iter___delivers self fs_scan fs_cmp sched pool _ _ H1 H2) as Hrun.
  simpl in Hrun. fold run in Hrun.
  rewrite Hpaths, fmap_app, fmap_cons, Hbefore, Hfail, deliver_app_raise in Hrun.
  by injection Hrun.
Qed.

Lemma C5_failed_comparison_ends_the_iteration_witness :
  let run := __iter__ (DirectoryComparer.__init__ "L" "R" 1) example_fs locked_fs
               idle_schedule (ThreadPoolExecutor.mk 1 []) in
  yielded run.1 = take 3 example_records ∧
  run.2 = Some (PermissionError ["L"; "sub"; "z.txt"]).
Proof.
  apply (C5_failed_comparison_ends_the_iteration
           (DirectoryComparer.__init__ "L" "R" 1) example_fs locked_fs
           idle_schedule (ThreadPoolExecutor.mk 1 [])
           example_dir1_files example_dir2_files
           ["a.txt"; "b.txt"; "sub/.hidden"] ["x/y/z.txt"] "sub/z.txt");
    vm_compute; reflexivity.
Defined.

(** C8: two runs on the same trees, with any two values of [max_workers] and
    any two schedules of the workers, enter their pools without error, yield
    the same records in the same order, end the same way, and leave the same
    summary counts. *)
Theorem C8_runs_are_deterministic
    (dir1 dir2 : string) (fs_scan fs_cmp : fsnode) (cpu_count : nat)
    (max_workers1 max_workers2 : Z) (sched1 sched2 : schedule) :
  let comparer1 := DirectoryComparer.__init__ dir1 dir2 max_workers1 in
  let comparer2 := DirectoryComparer.__init__ dir1 dir2 max_workers2 in
  ∃ pool1 pool2,
    __enter__ cpu_count comparer1 = Ok pool1 ∧
    __enter__ cpu_count comparer2 = Ok pool2 ∧
    let run1 := __iter__ comparer1 fs_scan fs_cmp sched1 pool1 in
    let run2 := __iter__ comparer2 fs_scan fs_cmp sched2 pool2 in
    yielded run1.1 = yielded run2.1 ∧
    run1.2 = run2.2 ∧
    ComparisonSummary.update_all ComparisonSummary.__init__ (yielded run1.1) =
    ComparisonSummary.update_all ComparisonSummary.__init__ (yielded run2.1).
Proof.
  intros comparer1 comparer2.
  assert (∀ w, ∃ pool,
            __enter__ cpu_count (DirectoryComparer.__init__ dir1 dir2 w) = Ok pool)
    as Henter.
  { intros w. unfold __enter__, DirectoryComparer.__init__. simpl.
    destruct (Z.ltb_spec 0 w); simpl; [|by eauto].
    destruct (Z.leb_spec w 0); [lia|by eauto]. }
  destruct (Henter max_workers1) as [pool1 Hp1].
  destruct (Henter max_workers2) as [pool2 Hp2].
  exists pool1, pool2. split; [done|]. split; [done|].
  destruct (_get_files_in_directory_total fs_scan
              (DirectoryComparer.dir1 comparer1)) as [dir1_files H1].
  destruct (_get_files_in_directory_total fs_scan
              (DirectoryComparer.dir2 comparer1)) as [dir2_files H2].
  pose proof (__iter___delivers comparer1 fs_scan fs_cmp sched1 pool1 _ _ H1 H2) as Hrun1.
  pose proof (__iter___delivers comparer2 fs_scan fs_cmp sched2 pool2 _ _ H1 H2) as Hrun2.
  simpl in *. rewrite <- Hrun2 in Hrun1. injection Hrun1 as -> ->. done.
Qed.

(** When the head of the queue is a future that is running, the drain stops
    at once: nothing is popped, nothing is yielded, and the dispatching
    thread is not suspended. *)
Lemma yield_from_queue_stops_at_running_head sched f rest σ :
  Future.running (tick sched σ) f = true →
  yield_from_queue sched true (SlotFuture f :: rest) σ =
    (tick sched σ, SlotFuture f :: rest, None).
Proof. intros Hrun. cbn [yield_from_queue]. by rewrite Hrun. Qed.

(** C2 is violated: a future that has been submitted but not yet started by
    a worker is neither running nor done. With such a future at the head,
    the drain that follows an append pops it and suspends the dispatching
    thread on its result. On the example trees, with one worker that has not
    yet taken the task when the dispatching thread looks, the thread is
    suspended on each of the three comparisons (tasks 2, 3 and 4, after the
    two scans) during the walk, and nothing is left for the final flush. *)
Theorem C2_drain_blocks_on_a_pending_head :
  let r := FileComparisonResult.mk "a.txt" IN_BOTH (Some 0) (Some 0) (Some false) in
  let future := Future.mk 0 (Ok r) in
  let σ := mkdstate (ThreadPoolExecutor.mk 1 [PENDING]) 0 [] in
  Future.running (tick idle_schedule σ) future = false ∧
  Future.done (tick idle_schedule σ) future = false ∧
  yield_from_queue idle_schedule true [SlotFuture future] σ =
    (mkdstate (ThreadPoolExecutor.mk 1 [FINISHED]) 1 [EvBlock 0; EvYield r], [], None) ∧
  let scanned := scan (DirectoryComparer.__init__ "L" "R" 1) example_fs idle_schedule
                   (mkdstate (ThreadPoolExecutor.mk 1 []) 0 []) in
  let walk := dispatch idle_schedule example_fs example_dir1_files example_dir2_files
                (all_files example_dir1_files example_dir2_files) [] scanned.1 in
  scanned.2 = Ok (example_dir1_files, example_dir2_files) ∧
  blocked scanned.1 = [0; 1]%nat ∧
  blocked walk.1.1 = [0; 1; 2; 3; 4]%nat ∧
  yielded walk.1.1 = example_records ∧
  walk.1.2 = [] ∧ walk.2 = None.
Proof. vm_compute. split_and!; reflexivity. Qed.

End Claims.

(** * Further properties of the code *)

(** ** The three-way comparison *)

Section Compare.
Import FileComparisonResult DirectoryComparer.

Lemma _compare_Q_cases (a b : Q) :
  ((b < a)%Q ∧ _compare a b = 1) ∨ ((a < b)%Q ∧ _compare a b = -1) ∨
  ((a == b)%Q ∧ _compare a b = 0).
Proof.
  unfold _compare, py_gt, Q_PyOrd.
  destruct (Qle_bool a b) eqn:Hab; simpl.
  - apply Qle_bool_iff in Hab.
    destruct (Qle_bool b a) eqn:Hba; simpl.
    + apply Qle_bool_iff in Hba. right; right. split; [by apply Qle_antisym|done].
    + right; left. split; [|done]. apply Qnot_le_lt. intros Hle.
      apply Qle_bool_iff in Hle. congruence.
  - left. split; [|done]. apply Qnot_le_lt. intros Hle.
    apply Qle_bool_iff in Hle. congruence.
Qed.

Lemma _compare_Q_opp (a b : Q) : _compare b a = - _compare a b.
Proof.
  destruct (_compare_Q_cases a b) as [[Hlt ->]|[[Hlt ->]|[Heq ->]]],
           (_compare_Q_cases b a) as [[Hlt' ->]|[[Hlt' ->]|[Heq' ->]]];
    try done; exfalso.
  all: try (apply Qlt_le_weak in Hlt; by apply Qle_not_lt in Hlt).
  all: try (rewrite Heq' in Hlt; by apply Qlt_irrefl in Hlt).
  all: try (rewrite Heq in Hlt'; by apply Qlt_irrefl in Hlt').
Qed.

Lemma _compare_Z_opp (a b : Z) : _compare b a = - _compare a b.
Proof. rewrite !_compare_Z_sgn, <- Z.sgn_opp. f_equal. lia. Qed.

(** X1: [_compare] is a three-way comparison on integers and on rationals:
    its value is [-1], [0] or [1]; it is [1] exactly when the first argument
    is greater, [-1] exactly when it is smaller and [0] exactly when the two
    are equal; and exchanging the arguments changes its sign. *)
Theorem X1_compare_is_a_three_way_comparison :
  (∀ a b : Z,
     (_compare a b = 1 ↔ b < a) ∧ (_compare a b = -1 ↔ a < b) ∧
     (_compare a b = 0 ↔ a = b) ∧
     (_compare a b = -1 ∨ _compare a b = 0 ∨ _compare a b = 1) ∧
     _compare b a = - _compare a b) ∧
  (∀ a b : Q,
     (_compare a b = 1 ↔ (b < a)%Q) ∧ (_compare a b = -1 ↔ (a < b)%Q) ∧
     (_compare a b = 0 ↔ (a == b)%Q) ∧
     (_compare a b = -1 ∨ _compare a b = 0 ∨ _compare a b = 1) ∧
     _compare b a = - _compare a b).
Proof.
  split; intros a b.
  - rewrite (_compare_Z_opp a b), (_compare_Z_sgn a b).
    destruct (Z.sgn_spec (a - b)) as [[? ->]|[[? ->]|[? ->]]]; lia.
  - rewrite (_compare_Q_opp a b).
    destruct (_compare_Q_cases a b) as [[Hlt ->]|[[Hlt ->]|[Heq ->]]].
    + split_and!; try done; try by auto.
      * split; [done|]. intros Hlt'. apply Qlt_le_weak in Hlt.
        by apply Qle_not_lt in Hlt.
      * split; [done|]. intros Heq. rewrite Heq in Hlt. by apply Qlt_irrefl in Hlt.
    + split_and!; try done; try by auto.
      * split; [done|]. intros Hlt'. apply Qlt_le_weak in Hlt.
        by apply Qle_not_lt in Hlt.
      * split; [done|]. intros Heq. rewrite Heq in Hlt. by apply Qlt_irrefl in Hlt.
    + split_and!; try done; try by auto.
      * split; [done|]. intros Hlt. rewrite Heq in Hlt. by apply Qlt_irrefl in Hlt.
      * split; [done|]. intros Hlt. rewrite Heq in Hlt. by apply Qlt_irrefl in Hlt.
Qed.

End Compare.

(** ** More about the pair comparator *)

Section PairComparatorMore.
Import FileComparisonResult DirectoryComparer.

(** The result of a comparison whose two handles resolve to files. *)
Lemma _compare_file_pair_resolved fs rel_path dir1_files dir2_files p1 p2 f1 f2 :
  dir1_files !! rel_path = Some p1 → dir2_files !! rel_path = Some p2 →
  fs_lookup fs p1 = Some (FsFile f1) → fs_lookup fs p2 = Some (FsFile f2) →
  _compare_file_pair fs rel_path dir1_files dir2_files =
  if bool_decide (st_size f1 = st_size f2) then
    if readable f1 then
      if readable f2 then
        ([IoStat p1; IoStat p2; IoStat p1; IoStat p2; IoRead p1; IoRead p2],
         Ok (FileComparisonResult.mk rel_path IN_BOTH
               (Some (_compare (st_mtime f1) (st_mtime f2))) (Some 0)
               (Some (bool_decide (content f1 = content f2)))))
      else ([IoStat p1; IoStat p2; IoStat p1; IoStat p2; IoRead p1],
            Raise (PermissionError p2))
    else ([IoStat p1; IoStat p2; IoStat p1; IoStat p2], Raise (PermissionError p1))
  else ([IoStat p1; IoStat p2],
        Ok (FileComparisonResult.mk rel_path IN_BOTH
              (Some (_compare (st_mtime f1) (st_mtime f2)))
              (Some (_compare (st_size f1) (st_size f2))) None)).
Proof.
  intros H1 H2 Hf1 Hf2.
  unfold _compare_file_pair, getitem, filecmp.cmp, read_all, stat.
  rewrite H1, H2; simpl. rewrite Hf1, Hf2; simpl.
  destruct (decide (st_size f1 = st_size f2)) as [Hsz|Hsz].
  - rewrite (bool_decide_eq_true_2 (st_size f1 = st_size f2)) by done.
    rewrite (proj2 (_compare_Z_zero _ _) Hsz).
    rewrite (bool_decide_eq_true_2 (Some 0 = Some 0)) by done. simpl.
    rewrite (bool_decide_eq_false_2 (st_size f1 ≠ st_size f2)) by (by intros ?).
    simpl. by destruct (readable f1), (readable f2).
  - rewrite (bool_decide_eq_false_2 (st_size f1 = st_size f2)) by done.
    rewrite bool_decide_eq_false_2; [done|].
    intros [= Heq]. by apply (proj1 (_compare_Z_zero _ _)) in Heq.
Qed.

(** X3: a comparison of two handles that resolve to files yields a record
    that [is_identical] exactly when the two files have the same modification
    time, the same size and the same bytes. *)
Theorem X3_identical_record_means_identical_files
    fs rel_path dir1_files dir2_files p1 p2 f1 f2 log r :
  dir1_files !! rel_path = Some p1 → dir2_files !! rel_path = Some p2 →
  fs_lookup fs p1 = Some (FsFile f1) → fs_lookup fs p2 = Some (FsFile f2) →
  _compare_file_pair fs rel_path dir1_files dir2_files = (log, Ok r) →
  is_identical r = true ↔
  (st_mtime f1 == st_mtime f2)%Q ∧ st_size f1 = st_size f2 ∧ content f1 = content f2.
Proof.
  intros H1 H2 Hf1 Hf2.
  rewrite (_compare_file_pair_resolved _ _ _ _ _ _ _ _ H1 H2 Hf1 Hf2).
  unfold is_identical.
  case_bool_decide as Hsz.
  - destruct (readable f1), (readable f2); try done. intros [= <- <-]. simpl.
    rewrite !andb_true_iff, !bool_decide_eq_true. split.
    + intros [[[= Hm] _] [= Hcontent%bool_decide_eq_true]].
      split_and!; [|done|done].
      destruct (_compare_Q_cases (st_mtime f1) (st_mtime f2))
        as [[_ Hc]|[[_ Hc]|[Heq _]]]; [congruence|congruence|done].
    + intros (Heq & _ & Hcontent). split_and!; try done.
      * f_equal.
        destruct (_compare_Q_cases (st_mtime f1) (st_mtime f2))
          as [[Hlt _]|[[Hlt _]|[_ Hc]]]; [exfalso..|done];
          rewrite Heq in Hlt; by apply Qlt_irrefl in Hlt.
      * f_equal. by apply bool_decide_eq_true.
  - intros [= <- <-]. simpl. split; [by rewrite andb_false_r|].
    by intros (_ & ? & _).
Qed.

Lemma X3_identical_record_means_identical_files_witness :
  is_identical
    (FileComparisonResult.mk "sub/z.txt" IN_BOTH (Some 0) (Some 0) (Some true)) = true ↔
  (st_mtime file_abc == st_mtime file_abc)%Q ∧ st_size file_abc = st_size file_abc ∧
  content file_abc = content file_abc.
Proof.
  apply (X3_identical_record_means_identical_files example_fs "sub/z.txt"
           example_dir1_files example_dir2_files
           ["L"; "sub"; "z.txt"] ["R"; "sub"; "z.txt"] file_abc file_abc
           [IoStat ["L"; "sub"; "z.txt"]; IoStat ["R"; "sub"; "z.txt"];
            IoStat ["L"; "sub"; "z.txt"]; IoStat ["R"; "sub"; "z.txt"];
            IoRead ["L"; "sub"; "z.txt"]; IoRead ["R"; "sub"; "z.txt"]]);
    vm_compute; reflexivity.
Defined.

(** X4: a comparison reads file content only after it has found both handles
    and stat'ed both files with equal sizes; what it reads is one of these
    two files. In particular a missing key, a vanished file or a size
    difference never leads to a read. *)
Theorem X4_content_is_read_only_for_equal_sizes
    fs rel_path dir1_files dir2_files log outcome p :
  _compare_file_pair fs rel_path dir1_files dir2_files = (log, outcome) →
  IoRead p ∈ log →
  ∃ p1 p2 f1 f2,
    dir1_files !! rel_path = Some p1 ∧ dir2_files !! rel_path = Some p2 ∧
    fs_lookup fs p1 = Some (FsFile f1) ∧ fs_lookup fs p2 = Some (FsFile f2) ∧
    st_size f1 = st_size f2 ∧ (p = p1 ∨ p = p2).
Proof.
  destruct (dir1_files !! rel_path) as [p1|] eqn:H1; cycle 1.
  { unfold _compare_file_pair, getitem. rewrite H1. simpl.
    intros [= <- _] Hin. by apply elem_of_nil in Hin. }
  destruct (dir2_files !! rel_path) as [p2|] eqn:H2; cycle 1.
  { unfold _compare_file_pair, getitem. rewrite H1, H2. simpl.
    intros [= <- _] Hin. by apply elem_of_nil in Hin. }
  destruct (fs_lookup fs p1) as [[f1|]|] eqn:Hf1; cycle 1.
  1,2: unfold _compare_file_pair, getitem, stat; rewrite H1, H2; simpl;
       rewrite Hf1; simpl; intros [= <- _] Hin;
       rewrite !elem_of_cons, elem_of_nil in Hin; by destruct Hin as [|[]].
  destruct (fs_lookup fs p2) as [[f2|]|] eqn:Hf2; cycle 1.
  1,2: unfold _compare_file_pair, getitem, stat; rewrite H1, H2; simpl;
       rewrite Hf1, Hf2; simpl; intros [= <- _] Hin;
       rewrite !elem_of_cons, elem_of_nil in Hin; by destruct Hin as [|[|[]]].
  rewrite (_compare_file_pair_resolved _ _ _ _ _ _ _ _ H1 H2 Hf1 Hf2).
  intros Hrun Hin. exists p1, p2, f1, f2.
  case_bool_decide as Hsz; cycle 1.
  { injection Hrun as <- _. rewrite !elem_of_cons, elem_of_nil in Hin.
    by destruct Hin as [|[|[]]]. }
  split_and!; try done.
  destruct (readable f1), (readable f2); injection Hrun as <- _;
    rewrite !elem_of_cons, elem_of_nil in Hin;
    repeat (destruct Hin as [Hin|Hin]; [try done; injection Hin as ->; by auto|]);
    done.
Qed.

Lemma X4_content_is_read_only_for_equal_sizes_witness :
  ∃ p1 p2 f1 f2,
    example_dir1_files !! "a.txt" = Some p1 ∧ example_dir2_files !! "a.txt" = Some p2 ∧
    fs_lookup example_fs p1 = Some (FsFile f1) ∧
    fs_lookup example_fs p2 = Some (FsFile f2) ∧
    st_size f1 = st_size f2 ∧ (["R"; "a.txt"] = p1 ∨ ["R"; "a.txt"] = p2).
Proof.
  apply (X4_content_is_read_only_for_equal_sizes example_fs "a.txt"
           example_dir1_files example_dir2_files
           (_compare_file_pair example_fs "a.txt"
              example_dir1_files example_dir2_files).1
           (_compare_file_pair example_fs "a.txt"
              example_dir1_files example_dir2_files).2).
  - vm_compute. reflexivity.
  - compute_done.
Defined.

End PairComparatorMore.

(** ** More about the tree scanner *)

Section ScannerMore.
Import DirectoryComparer.

Lemma fs_lookup_app (fs n : fsnode) (root rel : Path) :
  fs_lookup fs root = Some n → fs_lookup fs (root ++ rel) = fs_lookup n rel.
Proof.
  revert fs. induction root as [|name root IH]; intros fs; simpl.
  - by intros [= ->].
  - destruct fs as [f|listable es]; [done|].
    destruct (entry_lookup name es) as [c|]; [apply IH|done].
Qed.

Lemma walk_lookup_fs_lookup (n c : fsnode) (rel : Path) :
  walk_lookup n rel = Some c → fs_lookup n rel = Some c.
Proof.
  revert n. induction rel as [|name rel IH]; intros n; simpl; [done|].
  destruct n as [f|[] es]; try done.
  destruct (entry_lookup name es) as [c'|]; [apply IH|done].
Qed.

(** The entries of a scan of a listable root of a well-formed tree. *)
Lemma scan_lookup_spec (fs : fsnode) (root : Path) (es : list (string * fsnode))
    (file_map : gmap string Path) :
  fs_lookup fs root = Some (FsDir true es) →
  wf_fs (FsDir true es) →
  _get_files_in_directory fs root = Ok file_map →
  ∀ key handle,
    file_map !! key = Some handle ↔
    ∃ rel f, rel ≠ [] ∧ Forall slash_free rel ∧
             walk_lookup (FsDir true es) rel = Some (FsFile f) ∧
             key = pathlib.str rel ∧ handle = root ++ rel.
Proof.
  intros Hroot Hwf Hscan key handle.
  rewrite (_get_files_in_directory_walk_rel _ _ _ Hroot) in Hscan.
  injection Hscan as <-.
  assert (∀ r, r ∈ walk_rel [] (FsDir true es) ↔
               ∃ f, r ≠ [] ∧ walk_lookup (FsDir true es) r = Some (FsFile f)) as Hwalk.
  { intros r. rewrite (walk_rel_spec _ Hwf). split.
    - intros (r' & f & Hne & -> & Hl). by exists f.
    - intros (f & Hne & Hl). by exists r, f. }
  rewrite foldl_record_file_lookup.
  - split.
    + intros [(r & Hin & -> & ->)|[_ Hin]]; [|by rewrite lookup_empty in Hin].
      apply Hwalk in Hin as (f & Hne & Hl). exists r, f. split_and!; try done.
      by apply (walk_lookup_slash_free _ Hwf _ _ Hl).
    + intros (rel & f & Hne & _ & Hl & -> & ->). left. exists rel. split; [|done].
      apply Hwalk. by exists f.
  - intros r1 r2 (f1 & Hne1 & Hl1)%Hwalk (f2 & Hne2 & Hl2)%Hwalk.
    apply str_inj; try done.
    + by apply (walk_lookup_slash_free _ Hwf _ _ Hl1).
    + by apply (walk_lookup_slash_free _ Hwf _ _ Hl2).
Qed.

(** X5: the scan of a root that does not resolve to a directory that can be
    listed (a missing path, a file, a directory without list permission)
    raises nothing and returns the empty mapping. *)
Theorem X5_scan_of_an_unlistable_root_is_empty (fs : fsnode) (root : Path) :
  can_list fs root = false →
  _get_files_in_directory fs root = Ok ∅.
Proof.
  unfold can_list, _get_files_in_directory, os.walk.
  destruct (fs_lookup fs root) as [[f|[] es]|]; done.
Qed.

Lemma X5_scan_of_an_unlistable_root_is_empty_witness :
  _get_files_in_directory example_fs ["L"; "a.txt"] = Ok ∅.
Proof.
  apply (X5_scan_of_an_unlistable_root_is_empty example_fs ["L"; "a.txt"]).
  reflexivity.
Defined.

(** X6: in the scan of a listable root of a well-formed tree, every entry
    maps its key to a handle that lies under the root, resolves to a file of
    the scanned file system, and gives the key back: the handle taken
    relative to the root and joined with slashes is the key. Two keys never
    share a handle. *)
Theorem X6_scanned_handles_resolve_and_give_back_their_keys
    (fs : fsnode) (root : Path) (es : list (string * fsnode))
    (file_map : gmap string Path) :
  fs_lookup fs root = Some (FsDir true es) →
  wf_fs (FsDir true es) →
  _get_files_in_directory fs root = Ok file_map →
  (∀ key handle,
     file_map !! key = Some handle →
     ∃ rel f, handle = root ++ rel ∧
              fs_lookup fs handle = Some (FsFile f) ∧
              pathlib.relative_to handle root = Ok rel ∧
              pathlib.str rel = key) ∧
  (∀ key1 key2 handle,
     file_map !! key1 = Some handle → file_map !! key2 = Some handle → key1 = key2).
Proof.
  intros Hroot Hwf Hscan.
  pose proof (scan_lookup_spec fs root es file_map Hroot Hwf Hscan) as Hspec.
  split.
  - intros key handle (rel & f & _ & _ & Hl & -> & ->)%Hspec.
    exists rel, f. split_and!; [done| |apply relative_to_app|done].
    rewrite (fs_lookup_app _ _ _ _ Hroot). by apply walk_lookup_fs_lookup.
  - intros key1 key2 handle (rel1 & f1 & _ & _ & _ & -> & ->)%Hspec
                            (rel2 & f2 & _ & _ & _ & -> & Heq)%Hspec.
    by apply app_inv_head in Heq as ->.
Qed.

Lemma X6_scanned_handles_resolve_and_give_back_their_keys_witness :
  (∀ key handle,
     example_dir1_files !! key = Some handle →
     ∃ rel f, handle = ["L"] ++ rel ∧
              fs_lookup example_fs handle = Some (FsFile f) ∧
              pathlib.relative_to handle ["L"] = Ok rel ∧
              pathlib.str rel = key) ∧
  (∀ key1 key2 handle,
     example_dir1_files !! key1 = Some handle →
     example_dir1_files !! key2 = Some handle → key1 = key2).
Proof.
  apply (X6_scanned_handles_resolve_and_give_back_their_keys example_fs ["L"]
           [ ("a.txt", FsFile file_abc);
             ("b.txt", FsFile file_hello);
             ("sub", FsDir true [ (".hidden", FsFile file_abc);
                                  ("z.txt", FsFile file_abc) ]) ]).
  - reflexivity.
  - solve_wf_fs.
  - vm_compute. reflexivity.
Defined.

End ScannerMore.

(** ** More about the ordering pipeline *)

Section PipelineMore.
Import FileComparisonResult DirectoryComparer.

Lemma path_outcome_classification fs dir1_files dir2_files rel_path r :
  path_outcome fs dir1_files dir2_files rel_path = Ok r →
  relative_path r = rel_path ∧
  ((classification r = ONLY_IN_DIR1 ∧
    is_Some (dir1_files !! rel_path) ∧ dir2_files !! rel_path = None) ∨
   (classification r = ONLY_IN_DIR2 ∧
    dir1_files !! rel_path = None ∧ is_Some (dir2_files !! rel_path)) ∨
   (classification r = IN_BOTH ∧
    is_Some (dir1_files !! rel_path) ∧ is_Some (dir2_files !! rel_path))).
Proof.
  intros Hout. split; [by apply path_outcome_invariant in Hout as [? _]|].
  unfold path_outcome in Hout.
  destruct (dir1_files !! rel_path) as [p1|] eqn:H1,
           (dir2_files !! rel_path) as [p2|] eqn:H2; simpl in Hout.
  - right; right. destruct (_compare_file_pair _ _ _ _) as [log o] eqn:Hpair.
    simpl in Hout. subst o.
    apply _compare_file_pair_invariant in Hpair as (_ & Hc & _). by eauto.
  - left. injection Hout as <-. by eauto.
  - right; left. injection Hout as <-. by eauto.
  - unfold _compare_file_pair, getitem in Hout. by rewrite H1 in Hout.
Qed.



(** X7: every record the iteration yields carries the classification of its
    path: it is [ONLY_IN_DIR1] exactly when the path is a key of the first
    scan only, [ONLY_IN_DIR2] exactly when it is a key of the second scan
    only, and [IN_BOTH] exactly when it is a key of both. *)
Theorem X7_yielded_records_are_classified_by_membership
    (self : DirectoryComparer.t) (fs_scan fs_cmp : fsnode) (sched : schedule)
    (pool : ThreadPoolExecutor.t) (dir1_files dir2_files : gmap string Path) :
  _get_files_in_directory fs_scan (dir1 self) = Ok dir1_files →
  _get_files_in_directory fs_scan (dir2 self) = Ok dir2_files →
  Forall (λ r,
    (classification r = ONLY_IN_DIR1 ↔
       relative_path r ∈ dom dir1_files ∧ (relative_path r ∉ dom dir2_files)) ∧
    (classification r = ONLY_IN_DIR2 ↔
       (relative_path r ∉ dom dir1_files) ∧ relative_path r ∈ dom dir2_files) ∧
    (classification r = IN_BOTH ↔
       relative_path r ∈ dom dir1_files ∧ relative_path r ∈ dom dir2_files))
    (yielded (__iter__ self fs_scan fs_cmp sched pool).1).
Proof.
  intros H1 H2.
  pose proof (__iter___delivers self fs_scan fs_cmp sched pool _ _ H1 H2) as Hrun.
  simpl in Hrun. apply Forall_forall. intros r Hin.
  apply (f_equal fst) in Hrun. simpl in Hrun. rewrite Hrun in Hin.
  apply elem_of_deliver, list_elem_of_fmap in Hin as (rel_path & Hout & _).
  symmetry in Hout. apply path_outcome_classification in Hout as [-> Hclass].
  rewrite !elem_of_dom.
  unfold ONLY_IN_DIR1, ONLY_IN_DIR2, IN_BOTH in *.
  destruct Hclass as [(-> & Hin1 & Hin2)|[(-> & Hin1 & Hin2)|(-> & Hin1 & Hin2)]];
    rewrite ?Hin1, ?Hin2;
    (split_and!;
     (split;
      [ intros Heq; try done; split; try done; by intros [? ?]
      | intros [Ha Hb]; try done;
        try (by destruct Ha); try (by destruct Hb);
        try (exfalso; by apply Ha); try (exfalso; by apply Hb) ])).
Qed.

Lemma X7_yielded_records_are_classified_by_membership_witness :
  Forall (λ r,
    (classification r = ONLY_IN_DIR1 ↔
       relative_path r ∈ dom example_dir1_files ∧
       (relative_path r ∉ dom example_dir2_files)) ∧
    (classification r = ONLY_IN_DIR2 ↔
       (relative_path r ∉ dom example_dir1_files) ∧
       relative_path r ∈ dom example_dir2_files) ∧
    (classification r = IN_BOTH ↔
       relative_path r ∈ dom example_dir1_files ∧
       relative_path r ∈ dom example_dir2_files))
    (yielded (__iter__ (DirectoryComparer.__init__ "L" "R" 3) example_fs example_fs
                idle_schedule (ThreadPoolExecutor.mk 3 [])).1).
Proof.
  apply (X7_yielded_records_are_classified_by_membership
           (DirectoryComparer.__init__ "L" "R" 3) example_fs example_fs
           idle_schedule (ThreadPoolExecutor.mk 3 []));
    vm_compute; reflexivity.
Defined.



End PipelineMore.

(** ** Exchanging the two trees *)

Section Mirror.
Import FileComparisonResult DirectoryComparer.

Lemma deliver_without_exception {A} (outcomes : list (result A)) :
  (deliver outcomes).2 = None → outcomes = Ok <$> (deliver outcomes).1.
Proof.
  induction outcomes as [|[a|e] outcomes IH]; simpl; [done| |done].
  destruct (deliver outcomes) as [delivered raised]. simpl in *.
  intros Hnone. f_equal. by apply IH.
Qed.

Lemma _compare_file_pair_mirror fs rel_path dir1_files dir2_files log r :
  _compare_file_pair fs rel_path dir1_files dir2_files = (log, Ok r) →
  ∃ log', _compare_file_pair fs rel_path dir2_files dir1_files = (log', Ok (mirror r)).
Proof.
  destruct (dir1_files !! rel_path) as [p1|] eqn:H1; cycle 1.
  { unfold _compare_file_pair, getitem. by rewrite H1. }
  destruct (dir2_files !! rel_path) as [p2|] eqn:H2; cycle 1.
  { unfold _compare_file_pair, getitem. by rewrite H1, H2. }
  destruct (fs_lookup fs p1) as [[f1|]|] eqn:Hf1; cycle 1.
  1,2: unfold _compare_file_pair, getitem, stat; rewrite H1, H2; simpl;
       by rewrite Hf1.
  destruct (fs_lookup fs p2) as [[f2|]|] eqn:Hf2; cycle 1.
  1,2: unfold _compare_file_pair, getitem, stat; rewrite H1, H2; simpl;
       by rewrite Hf1, Hf2.
  rewrite (_compare_file_pair_resolved _ _ _ _ _ _ _ _ H1 H2 Hf1 Hf2).
  rewrite (_compare_file_pair_resolved _ _ _ _ _ _ _ _ H2 H1 Hf2 Hf1).
  destruct (decide (st_size f1 = st_size f2)) as [Hsz|Hsz].
  - rewrite (bool_decide_eq_true_2 (st_size f1 = st_size f2)) by done.
    rewrite (bool_decide_eq_true_2 (st_size f2 = st_size f1)) by done.
    destruct (readable f1), (readable f2); try done. intros [= <- <-].
    eexists. do 2 f_equal. unfold mirror; simpl.
    rewrite (_compare_Q_opp (st_mtime f1) (st_mtime f2)).
    do 3 f_equal. apply bool_decide_ext. by split.
  - rewrite (bool_decide_eq_false_2 (st_size f1 = st_size f2)) by done.
    rewrite (bool_decide_eq_false_2 (st_size f2 = st_size f1)) by (by intros ?).
    intros [= <- <-]. eexists. do 2 f_equal. unfold mirror; simpl.
    by rewrite (_compare_Q_opp (st_mtime f1) (st_mtime f2)),
               (_compare_Z_opp (st_size f1) (st_size f2)).
Qed.

Lemma path_outcome_mirror fs dir1_files dir2_files rel_path r :
  path_outcome fs dir1_files dir2_files rel_path = Ok r →
  path_outcome fs dir2_files dir1_files rel_path = Ok (mirror r).
Proof.
  unfold path_outcome.
  destruct (dir1_files !! rel_path) as [p1|] eqn:H1,
           (dir2_files !! rel_path) as [p2|] eqn:H2; simpl.
  - destruct (_compare_file_pair fs rel_path dir1_files dir2_files)
      as [log o] eqn:Hpair. simpl. intros ->.
    apply _compare_file_pair_mirror in Hpair as [log' ->]. done.
  - by intros [= <-].
  - by intros [= <-].
  - unfold _compare_file_pair, getitem. by rewrite H1.
Qed.

Lemma path_outcome_mirror_all fs dir1_files dir2_files (paths : list string) :
  ∀ rs,
    path_outcome fs dir1_files dir2_files <$> paths = Ok <$> rs →
    path_outcome fs dir2_files dir1_files <$> paths = Ok <$> (mirror <$> rs).
Proof.
  induction paths as [|rel_path paths IH]; intros [|r rs]; try done.
  rewrite !fmap_cons. intros [= Hr Hrs].
  by rewrite (path_outcome_mirror _ _ _ _ _ Hr), (IH _ Hrs).
Qed.

(** X2: exchanging the two directories mirrors the result. If the iteration
    over [dir1] and [dir2] ends without an exception, so does the iteration
    over [dir2] and [dir1], under any other schedule and pool, and it yields
    the mirrored records in the same order: the same paths, the one-sided
    classifications exchanged, the time and size comparisons with the
    opposite sign, the content comparison unchanged. *)
Theorem X2_exchanging_the_trees_mirrors_the_records
    (self : DirectoryComparer.t) (fs_scan fs_cmp : fsnode)
    (sched sched' : schedule) (pool pool' : ThreadPoolExecutor.t) :
  let run := __iter__ self fs_scan fs_cmp sched pool in
  let exchanged :=
    __iter__ (DirectoryComparer.mk (dir2 self) (dir1 self) (_max_workers self))
             fs_scan fs_cmp sched' pool' in
  run.2 = None →
  exchanged.2 = None ∧ yielded exchanged.1 = mirror <$> yielded run.1.
Proof.
  intros run exchanged Hnone.
  destruct (_get_files_in_directory_total fs_scan (dir1 self)) as [dir1_files H1].
  destruct (_get_files_in_directory_total fs_scan (dir2 self)) as [dir2_files H2].
  pose proof (__iter___delivers self fs_scan fs_cmp sched pool _ _ H1 H2) as Hrun.
  pose proof (__iter___delivers
                (DirectoryComparer.mk (dir2 self) (dir1 self) (_max_workers self))
                fs_scan fs_cmp sched' pool' _ _ H2 H1) as Hex.
  simpl in Hrun, Hex. fold run in Hrun. fold exchanged in Hex.
  assert (all_files dir2_files dir1_files = all_files dir1_files dir2_files) as Hpaths.
  { unfold all_files. by rewrite (comm_L (∪)). }
  rewrite Hpaths in Hex.
  assert (path_outcome fs_cmp dir1_files dir2_files <$> all_files dir1_files dir2_files
          = Ok <$> yielded run.1) as Hok.
  { rewrite (deliver_without_exception
               (path_outcome fs_cmp dir1_files dir2_files <$>
                all_files dir1_files dir2_files)); rewrite <- Hrun; done. }
  assert (path_outcome fs_cmp dir2_files dir1_files <$> all_files dir1_files dir2_files
          = Ok <$> (mirror <$> yielded run.1)) as Hmirror.
  { by apply path_outcome_mirror_all. }
  rewrite Hmirror, deliver_all_ok in Hex. by injection Hex.
Qed.

Lemma X2_exchanging_the_trees_mirrors_the_records_witness :
  let run := __iter__ (DirectoryComparer.__init__ "L" "R" 1) example_fs example_fs
               idle_schedule (ThreadPoolExecutor.mk 1 []) in
  let exchanged := __iter__ (DirectoryComparer.__init__ "R" "L" 1) example_fs example_fs
                     eager_schedule (ThreadPoolExecutor.mk 4 []) in
  exchanged.2 = None ∧ yielded exchanged.1 = mirror <$> yielded run.1.
Proof.
  apply (X2_exchanging_the_trees_mirrors_the_records
           (DirectoryComparer.__init__ "L" "R" 1) example_fs example_fs
           idle_schedule eager_schedule
           (ThreadPoolExecutor.mk 1 []) (ThreadPoolExecutor.mk 4 [])).
  vm_compute. reflexivity.
Defined.

End Mirror.

(** ** More about the drain *)

Section Drain.
Import FileComparisonResult DirectoryComparer.

(** X9: an exact account of one call of [yield_from_queue], blocking or not.
    The slots it pops are a prefix of the queue; their records are yielded in
    queue order and nothing else is; what it leaves is the rest of the queue,
    untouched. A blocking call leaves nothing. When a popped future raises,
    that future is consumed, nothing is yielded for it, and the slots behind
    it stay in the queue. *)
Theorem X9_drain_pops_a_prefix_and_yields_it_in_order
    (sched : schedule) (stop_at_running_task : bool) (queue : list slot) (σ : dstate) :
  let run := yield_from_queue sched stop_at_running_task queue σ in
  ∃ popped rs,
    yielded run.1.1 = yielded σ ++ rs ∧
    slot_outcome <$> popped = Ok <$> rs ∧
    match run.2 with
    | None =>
        queue = popped ++ run.1.2 ∧ (stop_at_running_task = false → run.1.2 = [])
    | Some e =>
        ∃ f, queue = popped ++ SlotFuture f :: run.1.2 ∧ Future.outcome f = Raise e
    end.
Proof.
  revert σ. induction queue as [|[r|f] queue IH]; intros σ; cbn [yield_from_queue].
  - exists [], []. simpl. by rewrite (right_id_L [] (++)).
  - specialize (IH (emit (EvYield r) σ)).
    destruct (yield_from_queue sched stop_at_running_task queue _)
      as [[σ' queue'] raised]. simpl in *.
    destruct IH as (popped & rs & Hy & Hout & Hq).
    rewrite yielded_emit, <- (assoc_L (++)) in Hy.
    exists (SlotResult r :: popped), (r :: rs).
    split; [done|]. split; [by rewrite !fmap_cons, Hout|].
    destruct raised as [e|].
    + destruct Hq as (f & Hq & He). exists f. split; [by rewrite Hq|done].
    + destruct Hq as [Hq Hnil]. split; [by rewrite Hq|done].
  - destruct (stop_at_running_task && Future.running (tick sched σ) f) eqn:Hstop.
    + exists [], []. simpl. rewrite (right_id_L [] (++)).
      split_and!; try done. intros ->. done.
    + destruct (Future.result (tick sched σ) f) as [σ1 [r|e]] eqn:Hres;
        apply yielded_result in Hres as [Hy1 Hr].
      * specialize (IH (emit (EvYield r) σ1)).
        destruct (yield_from_queue sched stop_at_running_task queue _)
          as [[σ' queue'] raised]. simpl in *.
        destruct IH as (popped & rs & Hy & Hout & Hq).
        rewrite yielded_emit, Hy1, yielded_tick, <- (assoc_L (++)) in Hy.
        exists (SlotFuture f :: popped), (r :: rs).
        split; [done|].
        split; [rewrite !fmap_cons, Hout; cbn [slot_outcome]; by rewrite <- Hr|].
        destruct raised as [e|].
        -- destruct Hq as (f' & Hq & He). exists f'. split; [by rewrite Hq|done].
        -- destruct Hq as [Hq Hnil]. split; [by rewrite Hq|done].
      * exists [], []. simpl. rewrite (right_id_L [] (++)).
        split_and!; try done. by exists f.
Qed.

End Drain.

Section DrainWithoutPending.
Import FileComparisonResult DirectoryComparer.

Lemma step_all_started (pool : ThreadPoolExecutor.t) (ev : worker_event) :
  all_started pool →
  all_started (ThreadPoolExecutor.step pool ev) ∧
  length (ThreadPoolExecutor.futures (ThreadPoolExecutor.step pool ev)) =
  length (ThreadPoolExecutor.futures pool).
Proof.
  intros Hall. unfold all_started in *. destruct ev as [|i]; simpl.
  - case_bool_decide; [|done]. destruct (list_find _ _) as [[i s]|]; [|done].
    simpl. split; [by apply Forall_insert|by rewrite length_insert].
  - case_bool_decide; [|done].
    simpl. split; [by apply Forall_insert|by rewrite length_insert].
Qed.

Lemma tick_all_started (sched : schedule) (σ : dstate) :
  all_started (executor σ) →
  all_started (executor (tick sched σ)) ∧
  length (ThreadPoolExecutor.futures (executor (tick sched σ))) =
  length (ThreadPoolExecutor.futures (executor σ)).
Proof.
  unfold tick. simpl. generalize (sched (clock σ)) (executor σ).
  intros evs. induction evs as [|ev evs IH]; intros pool Hall; simpl; [done|].
  destruct (step_all_started pool ev Hall) as [Hall' Hlen].
  destruct (IH _ Hall') as [? ?]. split; [done|congruence].
Qed.

Lemma blocked_emit_yield (r : FileComparisonResult.t) (σ : dstate) :
  blocked (emit (EvYield r) σ) = blocked σ.
Proof. unfold blocked, emit. simpl. rewrite omap_app. simpl. apply (right_id_L [] (++)). Qed.

(** X10: the drain that follows an append suspends the dispatching thread
    only on a task that no worker has started. When every task of the pool
    has been started (is running or finished), that drain never suspends the
    thread, whatever the workers do meanwhile. *)
Theorem X10_drain_never_blocks_once_tasks_are_started
    (sched : schedule) (queue : list slot) (σ : dstate) :
  all_started (executor σ) →
  Forall (slot_in_pool (executor σ)) queue →
  blocked (yield_from_queue sched true queue σ).1.1 = blocked σ.
Proof.
  revert σ. induction queue as [|[r|f] queue IH]; intros σ Hall Hq;
    cbn [yield_from_queue]; [done| |].
  - apply Forall_cons in Hq as [_ Hq].
    rewrite (IH (emit (EvYield r) σ)); [apply blocked_emit_yield|done..].
  - apply Forall_cons in Hq as [Hf Hq]. simpl in Hf.
    destruct (tick_all_started sched σ Hall) as [Hall' Hlen].
    assert (Forall (slot_in_pool (executor (tick sched σ))) queue) as Hq'.
    { eapply Forall_impl; [exact Hq|]. intros [?|f'] Hs; [done|].
      simpl in *. by rewrite Hlen. }
    destruct (ThreadPoolExecutor.futures (executor (tick sched σ)) !! Future.id f)
      as [s|] eqn:Hs; cycle 1.
    { apply lookup_ge_None in Hs. lia. }
    assert (s ≠ PENDING) as Hne.
    { unfold all_started in Hall'. rewrite Forall_forall in Hall'.
      apply Hall'. by eapply list_elem_of_lookup_2. }
    unfold Future.running, Future.result, Future.done, Future.state. rewrite Hs.
    destruct s; [done| |]; simpl.
    + done.
    + destruct (Future.outcome f) as [r|e]; [|done].
      rewrite (IH (emit (EvYield r) (tick sched σ))); [|done..].
      by rewrite blocked_emit_yield.
Qed.

Lemma X10_drain_never_blocks_once_tasks_are_started_witness :
  let future := Future.mk 0 (Ok (FileComparisonResult.mk "a.txt" IN_BOTH
                                   (Some 0) (Some 0) (Some false))) in
  let σ := mkdstate (ThreadPoolExecutor.mk 1 [RUNNING]) 0 [] in
  blocked (yield_from_queue eager_schedule true [SlotFuture future] σ).1.1 = blocked σ.
Proof.
  apply (X10_drain_never_blocks_once_tasks_are_started eager_schedule
           [SlotFuture (Future.mk 0 (Ok (FileComparisonResult.mk "a.txt" IN_BOTH
                                           (Some 0) (Some 0) (Some false))))]
           (mkdstate (ThreadPoolExecutor.mk 1 [RUNNING]) 0 []));
    compute_done.
Defined.

End DrainWithoutPending.

(** ** Trees without a common path *)

Section Disjoint.
Import FileComparisonResult DirectoryComparer.

Lemma submitted_emit (ev : event) (σ : dstate) :
  submitted (emit ev σ) =
  submitted σ ++ match ev with EvSubmit i => [i] | _ => [] end.
Proof. unfold submitted, emit. simpl. rewrite omap_app. by destruct ev. Qed.

Lemma submitted_result {A} (σ σ' : dstate) (f : Future.t A) (o : result A) :
  Future.result σ f = (σ', o) → submitted σ' = submitted σ.
Proof.
  unfold Future.result. case_match; intros [= <- <-]; [done|].
  rewrite submitted_emit. simpl. by rewrite (right_id_L [] (++)).
Qed.

Lemma submitted_submit {A} (σ σ' : dstate) (task : result A) (f : Future.t A) :
  submit σ task = (σ', f) → submitted σ' = submitted σ ++ [Future.id f].
Proof. unfold submit. simpl. intros [= <- <-]. by rewrite submitted_emit. Qed.

Lemma scan_submits_two (self : DirectoryComparer.t) fs sched σ :
  length (submitted (scan self fs sched σ).1) = (length (submitted σ) + 2)%nat.
Proof.
  unfold scan.
  destruct (submit σ _) as [σ1 f1] eqn:Hs1. apply submitted_submit in Hs1.
  destruct (submit σ1 _) as [σ2 f2] eqn:Hs2. apply submitted_submit in Hs2.
  assert (length (submitted (tick sched σ2)) = (length (submitted σ) + 2)%nat) as Hlen.
  { change (submitted (tick sched σ2)) with (submitted σ2).
    rewrite Hs2, Hs1, !length_app. simpl. lia. }
  destruct (Future.result (tick sched σ2) f1) as [σ3 o1] eqn:Hr1.
  apply submitted_result in Hr1.
  destruct o1 as [dir1_files|e]; [|simpl; by rewrite Hr1].
  destruct (Future.result (tick sched σ3) f2) as [σ4 o2] eqn:Hr2.
  apply submitted_result in Hr2.
  change (submitted (tick sched σ3)) with (submitted σ3) in Hr2.
  destruct o2; simpl; by rewrite Hr2, Hr1.
Qed.

Lemma dispatch_one_sided sched fs dir1_files dir2_files (paths : list string) :
  (∀ rel_path, rel_path ∈ paths →
     bool_decide (is_Some (dir1_files !! rel_path)) ≠
     bool_decide (is_Some (dir2_files !! rel_path))) →
  ∀ σ, ∃ σ',
    dispatch sched fs dir1_files dir2_files paths [] σ = (σ', [], None) ∧
    submitted σ' = submitted σ ∧ blocked σ' = blocked σ ∧
    executor σ' = executor σ ∧ clock σ' = clock σ.
Proof.
  induction paths as [|rel_path paths IH]; intros Hone σ; cbn [dispatch].
  - by exists σ.
  - assert (∃ r, enqueue fs dir1_files dir2_files rel_path [] σ = (σ, [SlotResult r]))
      as [r ->].
    { unfold enqueue. specialize (Hone rel_path (ltac:(by left))).
      destruct (bool_decide (is_Some (dir1_files !! rel_path))),
               (bool_decide (is_Some (dir2_files !! rel_path))); simpl;
        try done; by eauto. }
    cbn [yield_from_queue].
    destruct (IH (λ p Hp, Hone p (ltac:(by right))) (emit (EvYield r) σ))
      as (σ' & -> & Hs & Hb & He & Hc).
    exists σ'. split; [done|]. rewrite Hs, Hb, He, Hc.
    rewrite submitted_emit. unfold blocked, emit. simpl.
    rewrite omap_app. simpl. by rewrite !(right_id_L [] (++)).
Qed.

(** X11: when the two trees have no relative path in common, the iteration
    submits nothing to the pool but the two scans: no comparison is ever
    queued or waited for. It ends without an exception and yields one record
    for each path of the sorted union. *)
Theorem X11_trees_without_common_path_need_no_comparison
    (self : DirectoryComparer.t) (fs_scan fs_cmp : fsnode) (sched : schedule)
    (pool : ThreadPoolExecutor.t) (dir1_files dir2_files : gmap string Path) :
  _get_files_in_directory fs_scan (dir1 self) = Ok dir1_files →
  _get_files_in_directory fs_scan (dir2 self) = Ok dir2_files →
  dom dir1_files ∩ dom dir2_files = ∅ →
  let run := __iter__ self fs_scan fs_cmp sched pool in
  length (submitted run.1) = 2%nat ∧
  run.2 = None ∧
  relative_path <$> yielded run.1 = all_files dir1_files dir2_files.
Proof.
  intros H1 H2 Hdisj run.
  assert (∀ rel_path, ¬ (is_Some (dir1_files !! rel_path) ∧
                         is_Some (dir2_files !! rel_path))) as Hnot.
  { intros rel_path [Hin1%elem_of_dom Hin2%elem_of_dom].
    assert (rel_path ∈ dom dir1_files ∩ dom dir2_files) as Hin by set_solver.
    rewrite Hdisj in Hin. by apply elem_of_empty in Hin. }
  split.
  - unfold run, __iter__.
    pose proof (scan_submits_two self fs_scan sched (mkdstate pool 0 [])) as Hlen.
    destruct (scan_spec self fs_scan sched (mkdstate pool 0 []) _ _ H1 H2)
      as (σ0 & Hscan & _).
    rewrite Hscan in Hlen |- *. simpl in Hlen.
    destruct (dispatch_one_sided sched fs_cmp dir1_files dir2_files
                (all_files dir1_files dir2_files)) with (σ := σ0)
      as (σ' & -> & Hs & _).
    { intros rel_path Hin%all_files_elem_of.
      specialize (Hnot rel_path).
      repeat case_bool_decide; try done; [tauto|]. by destruct Hin. }
    simpl. by rewrite Hs.
  - pose proof (__iter___delivers self fs_scan fs_cmp sched pool _ _ H1 H2) as Hrun.
    simpl in Hrun. fold run in Hrun.
    destruct (path_outcome_comparable fs_cmp dir1_files dir2_files)
      as (rs & Hrs & Hrel).
    { intros rel_path p1 Hp1. simpl.
      destruct (dir2_files !! rel_path) as [p2|] eqn:Hp2; [|done].
      destruct (Hnot rel_path). by eauto. }
    rewrite Hrs, deliver_all_ok in Hrun. injection Hrun as -> ->. done.
Qed.

Lemma X11_trees_without_common_path_need_no_comparison_witness :
  let run := __iter__ (DirectoryComparer.__init__ "L/sub" "R/x" 1) example_fs example_fs
               idle_schedule (ThreadPoolExecutor.mk 1 []) in
  length (submitted run.1) = 2%nat ∧
  run.2 = None ∧
  relative_path <$> yielded run.1 =
    all_files (list_to_map [ (".hidden", ["L"; "sub"; ".hidden"]);
                             ("z.txt", ["L"; "sub"; "z.txt"]) ])
              (list_to_map [ ("y/z.txt", ["R"; "x"; "y"; "z.txt"]) ]).
Proof.
  apply (X11_trees_without_common_path_need_no_comparison
           (DirectoryComparer.__init__ "L/sub" "R/x" 1) example_fs example_fs
           idle_schedule (ThreadPoolExecutor.mk 1 []));
    vm_compute; reflexivity.
Defined.

End Disjoint.

(** ** More about the summary *)

Section SummaryMore.
Import FileComparisonResult ComparisonSummary.

Lemma update_tally (s : ComparisonSummary.t) (r : FileComparisonResult.t) :
  update s r =
  ComparisonSummary.mk
    (in_both s + tally (has_class IN_BOTH) [r])
    (only_in_dir1 s + tally (has_class ONLY_IN_DIR1) [r])
    (only_in_dir2 s + tally (has_class ONLY_IN_DIR2) [r])
    (dir1_newer s + tally is_dir1_newer [r])
    (dir2_newer s + tally is_dir2_newer [r])
    (same_time_diff_size s + tally is_same_time_diff_size [r])
    (same_time_size_diff_content s + tally is_same_time_size_diff_content [r]).
Proof.
  destruct s as [b o1 o2 n1 n2 ds dc], r as [p c m z same].
  unfold update, tally, has_class, is_dir1_newer, is_dir2_newer,
    is_same_time_diff_size, is_same_time_size_diff_content, same_time, has_class,
    ONLY_IN_DIR1, ONLY_IN_DIR2, IN_BOTH; simpl.
  rewrite !filter_cons, !filter_nil.
  repeat (case_bool_decide; simpl); subst; try done;
    repeat (case_decide; simpl); try done; try congruence;
    f_equal; lia.
Qed.

Lemma tally_cons test r rs : tally test (r :: rs) = (tally test [r] + tally test rs)%nat.
Proof.
  unfold tally. rewrite !filter_cons, filter_nil. by case_decide.
Qed.

Lemma update_all_tally (rs : list FileComparisonResult.t) :
  ∀ s : ComparisonSummary.t,
    update_all s rs =
    ComparisonSummary.mk
      (in_both s + tally (has_class IN_BOTH) rs)
      (only_in_dir1 s + tally (has_class ONLY_IN_DIR1) rs)
      (only_in_dir2 s + tally (has_class ONLY_IN_DIR2) rs)
      (dir1_newer s + tally is_dir1_newer rs)
      (dir2_newer s + tally is_dir2_newer rs)
      (same_time_diff_size s + tally is_same_time_diff_size rs)
      (same_time_size_diff_content s + tally is_same_time_size_diff_content rs).
Proof.
  unfold update_all. induction rs as [|r rs IH]; intros s; simpl.
  - destruct s. unfold tally. simpl. f_equal; lia.
  - rewrite IH, update_tally. simpl.
    rewrite !(tally_cons _ r rs). f_equal; lia.
Qed.

(** X12: what the summary counts. After any stream of records, each counter
    has grown by the number of records that pass its test: the three
    classifications for [in_both], [only_in_dir1] and [only_in_dir2]; among
    the entries in both trees, a time comparison of [1] for [dir1_newer], of
    [-1] for [dir2_newer], any other time comparison with a size comparison
    other than [0] for [same_time_diff_size], and with a size comparison of
    [0] and a content comparison of [False] for
    [same_time_size_diff_content]. *)
Theorem X12_summary_counters_are_tallies
    (s : ComparisonSummary.t) (rs : list FileComparisonResult.t) :
  let s' := update_all s rs in
  in_both s' = (in_both s + tally (has_class IN_BOTH) rs)%nat ∧
  only_in_dir1 s' = (only_in_dir1 s + tally (has_class ONLY_IN_DIR1) rs)%nat ∧
  only_in_dir2 s' = (only_in_dir2 s + tally (has_class ONLY_IN_DIR2) rs)%nat ∧
  dir1_newer s' = (dir1_newer s + tally is_dir1_newer rs)%nat ∧
  dir2_newer s' = (dir2_newer s + tally is_dir2_newer rs)%nat ∧
  same_time_diff_size s' =
    (same_time_diff_size s + tally is_same_time_diff_size rs)%nat ∧
  same_time_size_diff_content s' =
    (same_time_size_diff_content s + tally is_same_time_size_diff_content rs)%nat.
Proof. intros s'. unfold s'. by rewrite update_all_tally. Qed.

(** X13: the summary does not depend on the order in which the records
    arrive: two streams that are permutations of each other leave the same
    counts. *)
Theorem X13_summary_is_independent_of_the_order
    (s : ComparisonSummary.t) (rs rs' : list FileComparisonResult.t) :
  rs ≡ₚ rs' → update_all s rs = update_all s rs'.
Proof.
  intros Hperm. rewrite !update_all_tally. unfold tally.
  by rewrite !Hperm.
Qed.

Lemma X13_summary_is_independent_of_the_order_witness :
  update_all ComparisonSummary.__init__ example_records =
  update_all ComparisonSummary.__init__ (reverse example_records).
Proof.
  apply (X13_summary_is_independent_of_the_order ComparisonSummary.__init__
           example_records (reverse example_records)).
  symmetry. apply reverse_Permutation.
Defined.

End SummaryMore.
